(** * goqu: the database handle layer (dsl.go, database.go)

    A shallow embedding of the [DSL], [Database] and [TxDatabase] handles of
    goqu: trace-instrumented delegation to a raw connection, the lazily built
    query factory, and the commit-or-rollback protocol of [Wrap].

    Go code is embedded as computations over an explicit world:
    - the state of the external collaborators (driver, logger back end) is an
      abstract type [W]; a capability method is a function on [W];
    - every call the handle layer makes on a collaborator is appended to an
      event log, so that "invokes X exactly once" is a statement on the log;
    - [*DSL] values are addresses into a store of [DSL] objects, since the
      code mutates them in place ([Logger], [queryFactory]);
    - a computation either returns or panics; [Wrap]'s deferred function
      observes the panic with [recover], which yields nil for a panic with
      nil on the runtimes that still raise one;
    - the methods of the collaborators return, as their signatures say;
      the work handed to [Wrap] may return or panic;
    - an address with no object behind it is a nil handle: a method that
      reads through it panics with a nil dereference. *)

From Stdlib Require Import Ascii String.
From stdpp Require Import base option list gmap strings pretty.

Set Warnings "-register-all".


(** ** Go values and the fragment of package fmt used by [Trace] *)

Module Fmt.

(** The values that may be bound as query arguments ([interface{}]). *)
Inductive value :=
| VNil
| VInt (z : Z)
| VStr (s : string)
| VBool (b : bool)
| VSlice (l : list value).

(** Go's name of the dynamic type, as printed in fmt's diagnostics. *)
Definition type_name (v : value) : string :=
  match v with
  | VNil => "<nil>"
  | VInt _ => "int"
  | VStr _ => "string"
  | VBool _ => "bool"
  | VSlice _ => "[]interface {}"
  end.

(** [%v] (and [%+v], which differs from it on struct fields only): slices
    print as their elements between brackets, separated by one space. *)
Fixpoint fmt_v (v : value) : string :=
  match v with
  | VNil => "<nil>"
  | VInt z => pretty z
  | VStr s => s
  | VBool b => if b then "true" else "false"
  | VSlice l =>
      "[" +:+
      (fix elems (l : list value) : string :=
         match l with
         | [] => ""
         | [x] => fmt_v x
         | x :: (_ :: _) as r => fmt_v x +:+ " " +:+ elems r
         end) l +:+ "]"
  end.

(** An operand under a verb that does not apply to its type. *)
Definition bad_verb (c : ascii) (v : value) : string :=
  match v with
  | VNil => "%!" +:+ String c "(<nil>)"
  | _ => "%!" +:+ String c "(" +:+ type_name v +:+ "=" +:+ fmt_v v +:+ ")"
  end.

(** [%s]: strings print verbatim, slices element-wise. *)
Fixpoint fmt_s (v : value) : string :=
  match v with
  | VStr s => s
  | VSlice l =>
      "[" +:+
      (fix elems (l : list value) : string :=
         match l with
         | [] => ""
         | [x] => fmt_s x
         | x :: (_ :: _) as r => fmt_s x +:+ " " +:+ elems r
         end) l +:+ "]"
  | _ => bad_verb "s" v
  end.

Definition fmt_verb (c : ascii) (v : value) : string :=
  if Ascii.eqb c "s" then fmt_s v
  else if Ascii.eqb c "v" then fmt_v v
  else bad_verb c v.

Definition missing (c : ascii) : string := "%!" +:+ String c "(MISSING)".

(** Operands left over once the format is exhausted. *)
Fixpoint extra_list (l : list value) : string :=
  match l with
  | [] => ""
  | v :: r =>
      (match v with
       | VNil => "<nil>"
       | _ => type_name v +:+ "=" +:+ fmt_v v
       end) +:+
      (match r with [] => "" | _ => ", " +:+ extra_list r end)
  end.

Definition extra (l : list value) : string :=
  match l with
  | [] => ""
  | _ => "%!(EXTRA " +:+ extra_list l +:+ ")"
  end.

(** One directive: the verb character [c] consumes the next operand. *)
Definition directive (c : ascii) (args : list value) : string * list value :=
  if Ascii.eqb c "%" then ("%", args)
  else match args with
       | [] => (missing c, [])
       | v :: r => (fmt_verb c v, r)
       end.

(** [fmt.Sprintf] for formats built from literal text, [%%], and the verbs
    [%s], [%v], [%+v]. *)
Fixpoint Sprintf (format : string) (args : list value) : string :=
  match format with
  | "" => extra args
  | String "%" "" => "%!(NOVERB)" +:+ extra args
  | String "%" (String "+" (String c rest)) =>
      let '(out, args') := directive c args in out +:+ Sprintf rest args'
  | String "%" (String c rest) =>
      let '(out, args') := directive c args in out +:+ Sprintf rest args'
  | String a rest => String a (Sprintf rest args)
  end.

End Fmt.
Export Fmt.

(** ** Computations: world, events, return-or-panic *)

(** What a Go call yields: a value, or a panic carrying a panic value. *)
Inductive result (P A : Type) :=
| Val (a : A)
| Panic (p : P).
Arguments Val {P A} a.
Arguments Panic {P A} p.

(** Panic values: the run-time error of a nil dereference; a non-nil
    value of [V] (what a caller hands to [panic], or another run-time
    error value); and the nil of [panic(nil)], as a runtime older than
    Go 1.21, or one run with [GODEBUG=panicnil=1], raises it. From Go 1.21
    on [panic(nil)] raises a [*runtime.PanicNilError] instead, which is a
    non-nil value, and [PanicNil] does not arise. *)
Inductive panic_value (V : Type) :=
| NilDereference
| PanicWith (v : V)
| PanicNil.
Arguments NilDereference {V}.
Arguments PanicWith {V} v.
Arguments PanicNil {V}.

(** [recover()] in a deferred function stops the panic and returns its
    value; it returns nil when the goroutine is not panicking, and also
    when it is panicking with nil. *)
Definition recover {V A} (r : result (panic_value V) A)
  : option (panic_value V) :=
  match r with
  | Val _ => None
  | Panic PanicNil => None
  | Panic p => Some p
  end.

(** Addresses of [DSL] objects ([*DSL]). *)
Definition loc := nat.

(** The external world and the opaque types of [context] and
    [database/sql]: [W] is the state of the collaborators, [Err] are the
    non-nil [error] values, [PanicArg] the values handed to [panic],
    [Target] the destinations of a scan. *)
Class Types := {
  W : Type;
  Ctx : Type;
  Err : Type;
  PanicArg : Type;
  Result : Type;
  Stmt : Type;
  Rows : Type;
  Row : Type;
  TxOptions : Type;
  sql_Tx : Type;
  Target : Type;
  SelectDataset : Type;
  UpdateDataset : Type;
  InsertDataset : Type;
  DeleteDataset : Type;
  TruncateDataset : Type;
  (** [context.Background()]. *)
  Background : Ctx
}.

Section Goqu.

Context `{Types}.

(** Go's [error]: nil, or an error value. *)
Definition error := option Err.

(** *** The collaborators' interfaces *)

(** [Logger]: the trace sink. *)
Record Logger := {
  Printf : string -> list value -> W -> W
}.

(** [SQL]: the raw connection capability. *)
Record SQL := {
  sql_ExecContext : Ctx -> string -> list value -> W -> (Result * error) * W;
  sql_PrepareContext : Ctx -> string -> W -> (Stmt * error) * W;
  sql_QueryContext : Ctx -> string -> list value -> W -> (Rows * error) * W;
  sql_QueryRowContext : Ctx -> string -> list value -> W -> Row * W
}.

(** [SQLDatabase]: a connection that can begin transactions. *)
Record SQLDatabase := {
  db_SQL :> SQL;
  db_Begin : W -> (sql_Tx * error) * W;
  db_BeginTx : Ctx -> TxOptions -> W -> (sql_Tx * error) * W
}.

(** [SQLTx]: a transactional connection. *)
Record SQLTx := {
  tx_SQL :> SQL;
  tx_Commit : W -> error * W;
  tx_Rollback : W -> error * W
}.


(** Modelled from the spec: [exec.QueryFactory], of package exec. A
    factory is built from the owning handle as its sole input; one
    allocation is told from another by [qf_id]. *)
Record QueryFactory := {
  qf_owner : loc;
  qf_id : nat
}.

(** Modelled from the spec: the executor that [FromSQL] builds from SQL
    text and arguments. Its scan operations belong to the scanning
    subsystem and are fields of [Collaborators] below. *)
Record QueryExecutor := {
  ex_factory : QueryFactory;
  ex_query : string;
  ex_args : list value
}.

(** Modelled from the spec: [QueryFactory.FromSQL(sql, args...)]. *)
Definition FromSQL (q : QueryFactory) (query : string) (args : list value)
  : QueryExecutor :=
  {| ex_factory := q; ex_query := query; ex_args := args |}.

(** [sync.Once], as one goroutine sees it. *)
Record Once := { done : bool }.

(** The [DSL] struct. *)
Record DSL := {
  logger : option Logger;
  dialect : string;
  sql : SQL;
  qf : option QueryFactory;
  qfOnce : Once
}.

(** [Database] and [TxDatabase]: an embedded [*DSL] and the capability. *)
Record Database := {
  db_DSL : loc;
  Db : SQLDatabase
}.

Record TxDatabase := {
  tx_DSL : loc;
  Tx : SQLTx
}.

(** *** Events and the world *)

Inductive event :=
| EvPrintf (msg : string)
| EvExecContext (ctx : Ctx) (query : string) (args : list value)
                (r : Result * error)
| EvPrepareContext (ctx : Ctx) (query : string) (r : Stmt * error)
| EvQueryContext (ctx : Ctx) (query : string) (args : list value)
                 (r : Rows * error)
| EvQueryRowContext (ctx : Ctx) (query : string) (args : list value) (r : Row)
| EvBegin (r : sql_Tx * error)
| EvBeginTx (ctx : Ctx) (opts : TxOptions) (r : sql_Tx * error)
| EvCommit (e : error)
| EvRollback (e : error)
| EvNewQueryFactory (q : QueryFactory).

Record World := {
  ext : W;
  events : list event;
  dsls : gmap loc DSL;
  factories : nat
}.

Definition M (A : Type) : Type :=
  World -> result (panic_value PanicArg) A * World.

Definition ret {A} (a : A) : M A := fun w => (Val a, w).

Definition bind {A B} (c : M A) (k : A -> M B) : M B :=
  fun w =>
    match c w with
    | (Val a, w') => k a w'
    | (Panic p, w') => (Panic p, w')
    end.

Definition panic {A} (p : panic_value PanicArg) : M A := fun w => (Panic p, w).

Notation "'let*' x := c 'in' k" := (bind c (fun x => k))
  (at level 10, x pattern, c at level 100, k at level 200).
Notation "c ;; k" := (bind c (fun _ => k))
  (at level 100, k at level 200, right associativity).

(** The collaborators that are fixed for a program: the method set with
    which [*sql.Tx] satisfies [SQLTx], the dataset constructors of the
    query-building front end (each [newXDataset(dialect, qf).Method(args)]),
    and the scan operations of an executor of package exec. *)
Class Collaborators := {
  sqlTx_methods : sql_Tx -> SQLTx;
  newDataset_From :
    string -> option QueryFactory -> list value -> SelectDataset;
  newDataset_Select :
    string -> option QueryFactory -> list value -> SelectDataset;
  newUpdateDataset_Table :
    string -> option QueryFactory -> value -> UpdateDataset;
  newInsertDataset_Into :
    string -> option QueryFactory -> value -> InsertDataset;
  newDeleteDataset_From :
    string -> option QueryFactory -> value -> DeleteDataset;
  newTruncateDataset_Table :
    string -> option QueryFactory -> list value -> TruncateDataset;
  exec_ScanStructsContext : QueryExecutor -> Ctx -> Target -> M error;
  exec_ScanStructContext : QueryExecutor -> Ctx -> Target -> M (bool * error);
  exec_ScanValsContext : QueryExecutor -> Ctx -> Target -> M error;
  exec_ScanValContext : QueryExecutor -> Ctx -> Target -> M (bool * error)
}.

Context `{Collaborators}.

(** The world once a collaborator has been called: its state has moved
    to [e] and the call is on the log. *)
Definition log_event (ev : event) (e : W) (w : World) : World :=
  {| ext := e; events := events w ++ [ev];
     dsls := dsls w; factories := factories w |}.

(** A collaborator's method, run on the external state and logged. *)
Definition call {A} (f : W -> A * W) (ev : A -> event) : M A :=
  fun w =>
    let '(a, e) := f (ext w) in
    (Val a, log_event (ev a) e w).

(** Reading and writing through a [*DSL]. *)
Definition deref (d : loc) : M DSL :=
  fun w =>
    match dsls w !! d with
    | Some o => (Val o, w)
    | None => (Panic NilDereference, w)
    end.

Definition store (d : loc) (o : DSL) : M unit :=
  fun w =>
    match dsls w !! d with
    | Some _ => (Val tt, {| ext := ext w; events := events w;
                            dsls := <[d := o]> (dsls w);
                            factories := factories w |})
    | None => (Panic NilDereference, w)
    end.

Definition alloc (o : DSL) : M loc :=
  fun w =>
    let d := fresh (dom (dsls w)) in
    (Val d, {| ext := ext w; events := events w;
               dsls := <[d := o]> (dsls w); factories := factories w |}).

(** *** dsl.go *)

Definition newDSL (dialect : string) (sql : SQL) : M loc :=
  alloc {| logger := None; dialect := dialect; sql := sql;
           qf := None; qfOnce := {| done := false |} |}.

Definition Dialect (d : loc) : M string :=
  let* o := deref d in ret (dialect o).

(** [func (d *DSL) Logger(logger Logger)]. *)
Definition SetLogger (d : loc) (l : option Logger) : M unit :=
  let* o := deref d in
  store d {| logger := l; dialect := dialect o; sql := sql o;
             qf := qf o; qfOnce := qfOnce o |}.

(** [d.logger.Printf(format, v...)]: the sink receives the message that
    the format and the operands render to. *)
Definition logger_Printf (l : Logger) (format : string) (v : list value)
  : M unit :=
  call (fun e => (tt, Printf l format v e))
       (fun _ => EvPrintf (Sprintf format v)).

Definition Trace (d : loc) (op sqlString : string) (args : list value)
  : M unit :=
  let* o := deref d in
  match logger o with
  | Some l =>
      if decide (sqlString <> "") then
        if decide (length args <> 0) then
          logger_Printf l "[goqu] %s [query:=`%s` args:=%+v]"
                        [VStr op; VStr sqlString; VSlice args]
        else
          logger_Printf l "[goqu] %s [query:=`%s`]" [VStr op; VStr sqlString]
      else
        logger_Printf l "[goqu] %s" [VStr op]
  | None => ret tt
  end.

Definition ExecContext (d : loc) (ctx : Ctx) (query : string)
    (args : list value) : M (Result * error) :=
  Trace d "EXEC" query args ;;
  let* o := deref d in
  call (sql_ExecContext (sql o) ctx query args) (EvExecContext ctx query args).

Definition Exec (d : loc) (query : string) (args : list value)
  : M (Result * error) :=
  ExecContext d Background query args.

Definition PrepareContext (d : loc) (ctx : Ctx) (query : string)
  : M (Stmt * error) :=
  Trace d "PREPARE" query [] ;;
  let* o := deref d in
  call (sql_PrepareContext (sql o) ctx query) (EvPrepareContext ctx query).

Definition Prepare (d : loc) (query : string) : M (Stmt * error) :=
  PrepareContext d Background query.

Definition QueryContext (d : loc) (ctx : Ctx) (query : string)
    (args : list value) : M (Rows * error) :=
  Trace d "QUERY" query args ;;
  let* o := deref d in
  call (sql_QueryContext (sql o) ctx query args)
       (EvQueryContext ctx query args).

Definition Query (d : loc) (query : string) (args : list value)
  : M (Rows * error) :=
  QueryContext d Background query args.

Definition QueryRowContext (d : loc) (ctx : Ctx) (query : string)
    (args : list value) : M Row :=
  Trace d "QUERY ROW" query args ;;
  let* o := deref d in
  call (sql_QueryRowContext (sql o) ctx query args)
       (EvQueryRowContext ctx query args).

Definition QueryRow (d : loc) (query : string) (args : list value) : M Row :=
  QueryRowContext d Background query args.

(** Modelled from the spec: [exec.NewQueryFactory(d)] allocates a factory
    bound to the handle [d]. *)
Definition NewQueryFactory (d : loc) : M QueryFactory :=
  fun w =>
    let q := {| qf_owner := d; qf_id := factories w |} in
    (Val q, {| ext := ext w; events := events w ++ [EvNewQueryFactory q];
               dsls := dsls w; factories := S (factories w) |}).

(** [d.qfOnce.Do(f)]: [f] runs unless a call of [Do] ran it before; the
    once is marked done when [f] finishes, by return or by panic. *)
Definition qfOnce_Do (d : loc) (f : M unit) : M unit :=
  let* o := deref d in
  if done (qfOnce o) then ret tt
  else
    fun w =>
      let '(r, w1) := f w in
      match (let* o1 := deref d in
             store d {| logger := logger o1; dialect := dialect o1;
                        sql := sql o1; qf := qf o1;
                        qfOnce := {| done := true |} |}) w1 with
      | (Val _, w2) => (r, w2)
      | (Panic p, w2) => (Panic p, w2)
      end.

Definition queryFactory (d : loc) : M (option QueryFactory) :=
  qfOnce_Do d
    (let* q := NewQueryFactory d in
     let* o := deref d in
     store d {| logger := logger o; dialect := dialect o; sql := sql o;
                qf := Some q; qfOnce := qfOnce o |}) ;;
  let* o := deref d in
  ret (qf o).

Definition From (d : loc) (from : list value) : M SelectDataset :=
  let* o := deref d in
  let* q := queryFactory d in
  ret (newDataset_From (dialect o) q from).

Definition Select (d : loc) (cols : list value) : M SelectDataset :=
  let* o := deref d in
  let* q := queryFactory d in
  ret (newDataset_Select (dialect o) q cols).

Definition Update (d : loc) (table : value) : M UpdateDataset :=
  let* o := deref d in
  let* q := queryFactory d in
  ret (newUpdateDataset_Table (dialect o) q table).

Definition Insert (d : loc) (table : value) : M InsertDataset :=
  let* o := deref d in
  let* q := queryFactory d in
  ret (newInsertDataset_Into (dialect o) q table).

Definition Delete (d : loc) (table : value) : M DeleteDataset :=
  let* o := deref d in
  let* q := queryFactory d in
  ret (newDeleteDataset_From (dialect o) q table).

Definition Truncate (d : loc) (table : list value) : M TruncateDataset :=
  let* o := deref d in
  let* q := queryFactory d in
  ret (newTruncateDataset_Table (dialect o) q table).

(** [q.FromSQL(query, args...)] on the interface value [q]. *)
Definition factory_FromSQL (q : option QueryFactory) (query : string)
    (args : list value) : M QueryExecutor :=
  match q with
  | Some q => ret (FromSQL q query args)
  | None => panic NilDereference
  end.

Definition ScanStructsContext (d : loc) (ctx : Ctx) (i : Target)
    (query : string) (args : list value) : M error :=
  let* q := queryFactory d in
  let* e := factory_FromSQL q query args in
  exec_ScanStructsContext e ctx i.

Definition ScanStructs (d : loc) (i : Target) (query : string)
    (args : list value) : M error :=
  ScanStructsContext d Background i query args.

Definition ScanStructContext (d : loc) (ctx : Ctx) (i : Target)
    (query : string) (args : list value) : M (bool * error) :=
  let* q := queryFactory d in
  let* e := factory_FromSQL q query args in
  exec_ScanStructContext e ctx i.

Definition ScanStruct (d : loc) (i : Target) (query : string)
    (args : list value) : M (bool * error) :=
  ScanStructContext d Background i query args.

Definition ScanValsContext (d : loc) (ctx : Ctx) (i : Target)
    (query : string) (args : list value) : M error :=
  let* q := queryFactory d in
  let* e := factory_FromSQL q query args in
  exec_ScanValsContext e ctx i.

Definition ScanVals (d : loc) (i : Target) (query : string)
    (args : list value) : M error :=
  ScanValsContext d Background i query args.

Definition ScanValContext (d : loc) (ctx : Ctx) (i : Target)
    (query : string) (args : list value) : M (bool * error) :=
  let* q := queryFactory d in
  let* e := factory_FromSQL q query args in
  exec_ScanValContext e ctx i.

Definition ScanVal (d : loc) (i : Target) (query : string)
    (args : list value) : M (bool * error) :=
  ScanValContext d Background i query args.

(** *** database.go *)

Definition newDatabase (dialect : string) (db : SQLDatabase) : M Database :=
  let* d := newDSL dialect db in
  ret {| db_DSL := d; Db := db |}.

Definition NewTx (dialect : string) (tx : SQLTx) : M TxDatabase :=
  let* d := newDSL dialect tx in
  ret {| tx_DSL := d; Tx := tx |}.

Definition Begin (d : Database) : M (option TxDatabase * error) :=
  let* r := call (db_Begin (Db d)) EvBegin in
  let '(sqlTx, err) := r in
  match err with
  | Some _ => ret (None, err)
  | None =>
      let* o := deref (db_DSL d) in
      let* tx := NewTx (dialect o) (sqlTx_methods sqlTx) in
      let* o' := deref (db_DSL d) in
      SetLogger (tx_DSL tx) (logger o') ;;
      ret (Some tx, None)
  end.

Definition BeginTx (d : Database) (ctx : Ctx) (opts : TxOptions)
  : M (option TxDatabase * error) :=
  let* r := call (db_BeginTx (Db d) ctx opts) (EvBeginTx ctx opts) in
  let '(sqlTx, err) := r in
  match err with
  | Some _ => ret (None, err)
  | None =>
      let* o := deref (db_DSL d) in
      let* tx := NewTx (dialect o) (sqlTx_methods sqlTx) in
      let* o' := deref (db_DSL d) in
      SetLogger (tx_DSL tx) (logger o') ;;
      ret (Some tx, None)
  end.

Definition Commit (td : TxDatabase) : M error :=
  Trace (tx_DSL td) "COMMIT" "" [] ;;
  call (tx_Commit (Tx td)) EvCommit.

Definition Rollback (td : TxDatabase) : M error :=
  Trace (tx_DSL td) "ROLLBACK" "" [] ;;
  call (tx_Rollback (Tx td)) EvRollback.

(** The function [Wrap] defers. It runs when [fn] has returned or
    panicked ([r]); the named result [err] holds what [fn] returned, and
    nil when [fn] panicked before the return assigned it. When [recover]
    yields nil for a panic with nil, the panic is stopped all the same and
    the function goes on as after a return of nil. *)
Definition Wrap_deferred (td : TxDatabase)
    (r : result (panic_value PanicArg) error) : M error :=
  match recover r with
  | Some p =>
      Rollback td ;;
      panic p
  | None =>
      let err := match r with Val e => e | Panic _ => None end in
      match err with
      | Some _ =>
          let* rollbackErr := Rollback td in
          match rollbackErr with
          | Some _ => ret rollbackErr
          | None => ret err
          end
      | None =>
          let* commitErr := Commit td in
          match commitErr with
          | Some _ => ret commitErr
          | None => ret err
          end
      end
  end.

Definition Wrap (td : TxDatabase) (fn : M error) : M error :=
  fun w =>
    let '(r, w1) := fn w in
    Wrap_deferred td r w1.

(** [Begin] returns a handle exactly when it returns no error; the last
    case below, a method call on a nil handle, does not arise. *)
Definition WithTx (d : Database) (fn : TxDatabase -> M error) : M error :=
  let* r := Begin d in
  match r with
  | (_, Some e) => ret (Some e)
  | (Some tx, None) => Wrap tx (fn tx)
  | (None, None) => panic NilDereference
  end.

End Goqu.

Notation "'let*' x := c 'in' k" := (bind c (fun x => k))
  (at level 10, x pattern, c at level 100, k at level 200).
Notation "c ;; k" := (bind c (fun _ => k))
  (at level 100, k at level 200, right associativity).

(** ** The trace format, in the specification's words *)

(** The message prescribed for operation [op], SQL text [s] and bound
    arguments [a]; the arguments print as fmt prints a slice. *)
Definition spec_message (op s : string) (a : list value) : string :=
  match s, a with
  | "", _ => "[goqu] " +:+ op
  | _, [] => "[goqu] " +:+ op +:+ " [query:=`" +:+ s +:+ "`]"
  | _, _ => "[goqu] " +:+ op +:+ " [query:=`" +:+ s +:+ "` args:="
            +:+ fmt_v (VSlice a) +:+ "]"
  end.

(** [c] traces with [tr], calls the capability method [f] once, and
    returns the very value [f] produced. *)
Definition passes_through `{Types} {A} (c : M A) (tr : M unit)
    (f : W -> A * W) (ev : A -> event) (w : World) : Prop :=
  exists w1,
    tr w = (Val tt, w1) /\
    c w = (Val (f (ext w1)).1, log_event (ev (f (ext w1)).1) (f (ext w1)).2 w1).

(** The completion calls ([Commit], [Rollback] on the transactional
    capability) among the events of a log, in order. *)
Definition is_completion `{Types} (ev : event) : bool :=
  match ev with
  | EvCommit _ | EvRollback _ => true
  | _ => false
  end.

Definition completions `{Types} (evs : list event) : list event :=
  filter (fun ev => is_completion ev) evs.
Arguments completions : simpl never.

(** What [Begin] and [BeginTx] both do with the pair the capability
    returned. *)
Definition begun `{Types} `{!Collaborators} (d : Database)
    (r : sql_Tx * error) : M (option TxDatabase * error) :=
  let '(sqlTx, err) := r in
  match err with
  | Some _ => ret (None, err)
  | None =>
      let* o := deref (db_DSL d) in
      let* tx := NewTx (dialect o) (sqlTx_methods sqlTx) in
      let* o' := deref (db_DSL d) in
      SetLogger (tx_DSL tx) (logger o') ;;
      ret (Some tx, None)
  end.

(** What [Begin] and [BeginTx] owe their caller, given that the
    capability's begin returned [(sqlTx, err)] and left the collaborators
    in state [e]; [ev] is the log entry of that call, [o] the object of the
    database handle. On failure: no handle, the error itself, and nothing
    on the log but the call. On success: a handle on a new object with the
    dialect and the logger of [o], over the capability the call returned. *)
Definition begin_outcome `{Types} `{!Collaborators} (d : Database) (o : DSL)
    (w : World) (ev : event) (sqlTx : sql_Tx) (err : error) (e : W)
    (res : result (panic_value PanicArg) (option TxDatabase * error) * World)
  : Prop :=
  match err with
  | Some E => res = (Val (None, Some E), log_event ev e w)
  | None =>
      exists tx otx w2,
        res = (Val (Some tx, None), w2) /\
        Tx tx = sqlTx_methods sqlTx /\
        dsls w2 !! tx_DSL tx = Some otx /\
        dialect otx = dialect o /\
        logger otx = logger o /\
        tx_DSL tx <> db_DSL d /\
        dsls w2 !! db_DSL d = Some o /\
        events w2 = events w ++ [ev] /\
        ext w2 = e
  end.

(** [c] run [n] times in a row, the values it returned in order. *)
Fixpoint repeatM `{Types} {A} (n : nat) (c : M A) : M (list A) :=
  match n with
  | 0 => ret []
  | S n => let* a := c in let* l := repeatM n c in ret (a :: l)
  end.

(** The handle [d] holds factory [q], built and published. *)
Definition built `{Types} (d : loc) (q : QueryFactory) (w : World) : Prop :=
  exists o, dsls w !! d = Some o /\ done (qfOnce o) = true /\ qf o = Some q.

(** The operations of a handle that obtain the factory, each with what it
    does with it: the dataset constructors and the scans. [o] is the
    object of the handle when the operation starts. *)
Inductive factory_use `{Types} `{!Collaborators} (d : loc) (o : DSL)
  : forall {A : Type}, M A -> (option QueryFactory -> M A) -> Prop :=
| use_From from :
    factory_use d o (From d from)
      (fun q => ret (newDataset_From (dialect o) q from))
| use_Select cols :
    factory_use d o (Select d cols)
      (fun q => ret (newDataset_Select (dialect o) q cols))
| use_Update table :
    factory_use d o (Update d table)
      (fun q => ret (newUpdateDataset_Table (dialect o) q table))
| use_Insert table :
    factory_use d o (Insert d table)
      (fun q => ret (newInsertDataset_Into (dialect o) q table))
| use_Delete table :
    factory_use d o (Delete d table)
      (fun q => ret (newDeleteDataset_From (dialect o) q table))
| use_Truncate table :
    factory_use d o (Truncate d table)
      (fun q => ret (newTruncateDataset_Table (dialect o) q table))
| use_ScanStructsContext ctx i query args :
    factory_use d o (ScanStructsContext d ctx i query args)
      (fun q => let* e := factory_FromSQL q query args in
                exec_ScanStructsContext e ctx i)
| use_ScanStructContext ctx i query args :
    factory_use d o (ScanStructContext d ctx i query args)
      (fun q => let* e := factory_FromSQL q query args in
                exec_ScanStructContext e ctx i)
| use_ScanValsContext ctx i query args :
    factory_use d o (ScanValsContext d ctx i query args)
      (fun q => let* e := factory_FromSQL q query args in
                exec_ScanValsContext e ctx i)
| use_ScanValContext ctx i query args :
    factory_use d o (ScanValContext d ctx i query args)
      (fun q => let* e := factory_FromSQL q query args in
                exec_ScanValContext e ctx i).

(** ** [queryFactory] under concurrent callers

    Goroutines that call [d.queryFactory()] on one handle, interleaved at
    the grain of the shared accesses of [sync.Once]:
<<
    func (o *Once) Do(f func()) {
        if o.done.Load() == 0 { o.doSlow(f) }
    }
    func (o *Once) doSlow(f func()) {
        o.m.Lock()
        defer o.m.Unlock()
        if o.done.Load() == 0 {
            defer o.done.Store(1)
            f()
        }
    }
>>
    with [f] the closure [d.qf = exec.NewQueryFactory(d)] and the read of
    [d.qf] that follows [Do]. *)

(** Where a goroutine stands in [queryFactory]. *)
Inductive pc :=
| Enter                              (* at the first o.done.Load() *)
| Lock                               (* at o.m.Lock() *)
| Check                              (* at the second o.done.Load() *)
| Build                              (* at exec.NewQueryFactory(d) *)
| Assign (q : QueryFactory)          (* at d.qf = q *)
| SetDone                            (* at o.done.Store(1) *)
| Unlock                             (* at o.m.Unlock() *)
| Read                               (* at return d.qf *)
| Returned (r : option QueryFactory).

(** The memory the goroutines share: the once of the handle, its [qf]
    field and the allocator of factories. [s_mutex] names the goroutine
    that holds [o.m]. *)
Record shared := {
  s_done : bool;
  s_mutex : option nat;
  s_qf : option QueryFactory;
  s_factories : nat
}.

(** One step of goroutine [i]; [None] when it is blocked on the mutex or
    has returned. *)
Definition thread_step (d : loc) (i : nat) (s : shared) (p : pc)
  : option (shared * pc) :=
  match p with
  | Enter => Some (s, if s_done s then Read else Lock)
  | Lock =>
      match s_mutex s with
      | None => Some ({| s_done := s_done s; s_mutex := Some i;
                         s_qf := s_qf s; s_factories := s_factories s |},
                      Check)
      | Some _ => None
      end
  | Check => Some (s, if s_done s then Unlock else Build)
  | Build =>
      Some ({| s_done := s_done s; s_mutex := s_mutex s; s_qf := s_qf s;
               s_factories := S (s_factories s) |},
            Assign {| qf_owner := d; qf_id := s_factories s |})
  | Assign q =>
      Some ({| s_done := s_done s; s_mutex := s_mutex s; s_qf := Some q;
               s_factories := s_factories s |}, SetDone)
  | SetDone =>
      Some ({| s_done := true; s_mutex := s_mutex s; s_qf := s_qf s;
               s_factories := s_factories s |}, Unlock)
  | Unlock =>
      Some ({| s_done := s_done s; s_mutex := None; s_qf := s_qf s;
               s_factories := s_factories s |}, Read)
  | Read => Some (s, Returned (s_qf s))
  | Returned _ => None
  end.

(** The scheduler picks goroutine [i]; picking one that cannot move
    leaves the state as it is. *)
Definition step (d : loc) (i : nat) (st : shared * list pc)
  : shared * list pc :=
  match st.2 !! i with
  | Some p =>
      match thread_step d i st.1 p with
      | Some (s', p') => (s', <[i := p']> st.2)
      | None => st
      end
  | None => st
  end.

Definition run (d : loc) (schedule : list nat) (st : shared * list pc)
  : shared * list pc :=
  foldl (fun st i => step d i st) st schedule.

(** [n] goroutines about to call [queryFactory] on a handle whose once has
    not fired; [k] factories were allocated before. *)
Definition start (k n : nat) : shared * list pc :=
  ({| s_done := false; s_mutex := None; s_qf := None; s_factories := k |},
   replicate n Enter).

(** The invariant of the machine: [Q] is the one factory of the handle. *)
Definition critical (p : pc) : bool :=
  match p with
  | Check | Build | Assign _ | SetDone | Unlock => true
  | _ => false
  end.

Definition data_ok (Q : QueryFactory) (k : nat) (s : shared) : Prop :=
  if s_done s then s_qf s = Some Q /\ s_factories s = S k
  else s_qf s = None /\ s_factories s = k.

Definition holder_ok (Q : QueryFactory) (k : nat) (s : shared) (p : pc)
  : Prop :=
  match p with
  | Check => data_ok Q k s
  | Build => s_done s = false /\ s_qf s = None /\ s_factories s = k
  | Assign q =>
      s_done s = false /\ q = Q /\ s_qf s = None /\ s_factories s = S k
  | SetDone => s_done s = false /\ s_qf s = Some Q /\ s_factories s = S k
  | Unlock => s_done s = true /\ s_qf s = Some Q /\ s_factories s = S k
  | _ => False
  end.

Definition waiter_ok (Q : QueryFactory) (s : shared) (p : pc) : Prop :=
  match p with
  | Read => s_done s = true
  | Returned r => s_done s = true /\ r = Some Q
  | _ => True
  end.

Record once_inv (Q : QueryFactory) (k : nat) (st : shared * list pc)
  : Prop := {
  inv_mutex : forall j p,
    st.2 !! j = Some p -> critical p = true -> s_mutex st.1 = Some j;
  inv_holder : forall i,
    s_mutex st.1 = Some i ->
    exists p, st.2 !! i = Some p /\ holder_ok Q k st.1 p;
  inv_idle : s_mutex st.1 = None -> data_ok Q k st.1;
  inv_waiter : forall j p, st.2 !! j = Some p -> waiter_ok Q st.1 p
}.

(** How many steps a goroutine at [p] has before it, at most; the sum
    over the goroutines bounds the steps the machine can still make. *)
Definition rank (p : pc) : nat :=
  match p with
  | Enter => 8
  | Lock => 7
  | Check => 6
  | Build => 5
  | Assign _ => 4
  | SetDone => 3
  | Unlock => 2
  | Read => 1
  | Returned _ => 0
  end.

Definition work_left (ts : list pc) : nat := sum_list (rank <$> ts).

(** ** Programs over one transaction handle

    What a caller may do with a [TxDatabase], as data: complete it, run
    statements through it, or hand [Wrap] a piece of work that is itself
    such a program and ends by returning an error value or by panicking. *)

Inductive ending `{Types} :=
| Return (e : error)
| Crash (p : panic_value PanicArg).

Inductive op `{Types} :=
| OCommit
| ORollback
| OExec (ctx : Ctx) (query : string) (args : list value)
| OPrepare (ctx : Ctx) (query : string)
| OQuery (ctx : Ctx) (query : string) (args : list value)
| OQueryRow (ctx : Ctx) (query : string) (args : list value)
| OWrap (body : list op) (fin : ending).

Definition finish `{Types} (fin : ending) : M error :=
  match fin with
  | Return e => ret e
  | Crash p => panic p
  end.

(** Computations one after the other; a panic ends the sequence. *)
Definition seqM `{Types} (cs : list (M unit)) : M unit :=
  foldr (fun c k => c ;; k) (ret tt) cs.

Fixpoint run_op `{Types} (td : TxDatabase) (o : op) : M unit :=
  match o with
  | OCommit => Commit td ;; ret tt
  | ORollback => Rollback td ;; ret tt
  | OExec ctx query args => ExecContext (tx_DSL td) ctx query args ;; ret tt
  | OPrepare ctx query => PrepareContext (tx_DSL td) ctx query ;; ret tt
  | OQuery ctx query args => QueryContext (tx_DSL td) ctx query args ;; ret tt
  | OQueryRow ctx query args =>
      QueryRowContext (tx_DSL td) ctx query args ;; ret tt
  | OWrap body fin =>
      Wrap td (seqM (map (run_op td) body) ;; finish fin) ;; ret tt
  end.

Definition run_ops `{Types} (td : TxDatabase) (prog : list op) : M unit :=
  seqM (map (run_op td) prog).

(** The completions that took effect: the calls of [Commit] and [Rollback]
    on the capability that returned nil. *)
Definition effective `{Types} (ev : event) : bool :=
  match ev with
  | EvCommit None | EvRollback None => true
  | _ => false
  end.

Definition took_effect `{Types} (evs : list event) : list event :=
  filter (fun ev => effective ev) evs.
Arguments took_effect : simpl never.

(** A transactional capability that completes once, as [*sql.Tx] does:
    [closed] tells the states in which the transaction is over; a
    completion that succeeds closes it, a completion on a closed
    transaction fails and leaves it closed. *)
Record one_shot `{Types} (closed : W -> bool) (t : SQLTx) : Prop := {
  commit_closes : forall e,
    (tx_Commit t e).1 = None -> closed (tx_Commit t e).2 = true;
  commit_refused : forall e,
    closed e = true ->
    (tx_Commit t e).1 <> None /\ closed (tx_Commit t e).2 = true;
  rollback_closes : forall e,
    (tx_Rollback t e).1 = None -> closed (tx_Rollback t e).2 = true;
  rollback_refused : forall e,
    closed e = true ->
    (tx_Rollback t e).1 <> None /\ closed (tx_Rollback t e).2 = true
}.

(** Statements and log entries do not reopen a transaction that is over:
    the connection and the sink of the handle's object keep [closed]. *)
Record keeps_closed `{Types} (closed : W -> bool) (o : DSL) : Prop := {
  exec_keeps : forall ctx q a e,
    closed e = true -> closed (sql_ExecContext (sql o) ctx q a e).2 = true;
  prepare_keeps : forall ctx q e,
    closed e = true -> closed (sql_PrepareContext (sql o) ctx q e).2 = true;
  query_keeps : forall ctx q a e,
    closed e = true -> closed (sql_QueryContext (sql o) ctx q a e).2 = true;
  queryRow_keeps : forall ctx q a e,
    closed e = true -> closed (sql_QueryRowContext (sql o) ctx q a e).2 = true;
  printf_keeps : forall l format v e,
    logger o = Some l -> closed e = true -> closed (Printf l format v e) = true
}.

(** The handle's object, whenever it is looked up, does not reopen. *)
Definition good `{Types} (closed : W -> bool) (td : TxDatabase) (w : World)
  : Prop :=
  forall o, dsls w !! tx_DSL td = Some o -> keeps_closed closed o.

Definition effected `{Types} (w : World) : nat :=
  length (took_effect (events w)).

(** From [w] to [w']: at most one more completion took effect, none when
    the transaction was over, and one that did closed it. *)
Definition advance `{Types} (closed : W -> bool) (td : TxDatabase)
    (w w' : World) : Prop :=
  good closed td w ->
  good closed td w' /\
  effected w <= effected w' <= S (effected w) /\
  (closed (ext w) = true ->
   closed (ext w') = true /\ effected w' = effected w) /\
  (effected w' = S (effected w) -> closed (ext w') = true).

Definition safe `{Types} (closed : W -> bool) (td : TxDatabase) {A}
    (c : M A) : Prop :=
  forall w, advance closed td w (c w).2.

(** ** Handles as objects: what the constructors and the setter leave *)

(** [d] is a handle made in [w], giving [w']: it was no handle before,
    the handles of [w] are as they were, nothing was logged or sent; it
    reports [dialect], traces nothing, sends its statements to [s] and has
    no query factory yet. *)
Definition new_handle `{Types} (d : loc) (dialect0 : string) (s : SQL)
    (w w' : World) : Prop :=
  dsls w !! d = None /\
  (forall d0 o0, dsls w !! d0 = Some o0 -> dsls w' !! d0 = Some o0) /\
  events w' = events w /\
  ext w' = ext w /\
  Dialect d w' = (Val dialect0, w') /\
  (forall op q args, Trace d op q args w' = (Val tt, w')) /\
  (forall ctx q args,
     passes_through (ExecContext d ctx q args) (Trace d "EXEC" q args)
       (sql_ExecContext s ctx q args) (EvExecContext ctx q args) w') /\
  exists o, dsls w' !! d = Some o /\ qf o = None /\ done (qfOnce o) = false.

(** The object [o] with its logger replaced. *)
Definition with_logger `{Types} (l : option Logger) (o : DSL) : DSL :=
  {| logger := l; dialect := dialect o; sql := sql o; qf := qf o;
     qfOnce := qfOnce o |}.

(** The world with the object at [d] replaced. *)
Definition with_object `{Types} (d : loc) (o : DSL) (w : World) : World :=
  {| ext := ext w; events := events w; dsls := <[d := o]> (dsls w);
     factories := factories w |}.

(** The object [Begin] and [BeginTx] make for a transaction over the
    capability [t], begun from a database handle whose object is [o]. *)
Definition tx_object `{Types} (o : DSL) (t : SQLTx) : DSL :=
  {| logger := logger o; dialect := dialect o; sql := t; qf := None;
     qfOnce := {| done := false |} |}.

(** The world [Begin] leaves on success: the call is logged, the
    collaborators are in state [e], and the transaction's object sits at a
    new address. *)
Definition begun_world `{Types} (ev : event) (e : W) (o : DSL) (t : SQLTx)
    (w : World) : World :=
  with_object (fresh (dom (dsls w))) (tx_object o t) (log_event ev e w).

(** [tx] is a handle on the transaction [t] in world [w1]: its statements
    and completions go to [t], and the first use of its query factory
    builds a factory of its own, the [k]-th allocated. *)
Definition transaction_handle `{Types} (tx : TxDatabase) (t : SQLTx)
    (k : nat) (w1 : World) : Prop :=
  Tx tx = t /\
  (forall ctx q a,
     passes_through (ExecContext (tx_DSL tx) ctx q a)
       (Trace (tx_DSL tx) "EXEC" q a)
       (sql_ExecContext t ctx q a) (EvExecContext ctx q a) w1) /\
  (forall ctx q,
     passes_through (PrepareContext (tx_DSL tx) ctx q)
       (Trace (tx_DSL tx) "PREPARE" q [])
       (sql_PrepareContext t ctx q) (EvPrepareContext ctx q) w1) /\
  (forall ctx q a,
     passes_through (QueryContext (tx_DSL tx) ctx q a)
       (Trace (tx_DSL tx) "QUERY" q a)
       (sql_QueryContext t ctx q a) (EvQueryContext ctx q a) w1) /\
  (forall ctx q a,
     passes_through (QueryRowContext (tx_DSL tx) ctx q a)
       (Trace (tx_DSL tx) "QUERY ROW" q a)
       (sql_QueryRowContext t ctx q a) (EvQueryRowContext ctx q a) w1) /\
  exists w2,
    queryFactory (tx_DSL tx) w1
    = (Val (Some {| qf_owner := tx_DSL tx; qf_id := k |}), w2).

(** [c] writes the trace entry of [op], [q], [args] to the logger [l]
    and then calls the capability method [f], in that order: the method
    runs on the state the logger left, both calls are on the log, and the
    value of the method is returned. *)
Definition logged_then_sent `{Types} {A} (c : M A) (op q : string)
    (args : list value) (l : Logger) (f : W -> A * W) (ev : A -> event)
    (w : World) : Prop :=
  exists format v,
    Sprintf format v = spec_message op q args /\
    (c w).1 = Val (f (Printf l format v (ext w))).1 /\
    events (c w).2
    = events w ++ [EvPrintf (spec_message op q args);
                   ev (f (Printf l format v (ext w))).1] /\
    ext (c w).2 = (f (Printf l format v (ext w))).2.

(** The outcome [c] of a run is that of one completion on the
    capability: after the trace entry [tr], written in world [w2], the
    method [f] ran once on the state the trace left, its call [ev] is
    the one completion added to the log, its state is the state of the
    collaborators, and the run ended with [out] of what [f] returned. *)
Definition completes_with `{Types}
    (c : result (panic_value PanicArg) error * World) (tr : M unit)
    (f : W -> error * W) (ev : error -> event)
    (out : error -> result (panic_value PanicArg) error) (w2 : World)
  : Prop :=
  exists wt,
    tr w2 = (Val tt, wt) /\
    completions (events wt) = completions (events w2) /\
    c = (out (f (ext wt)).1, log_event (ev (f (ext wt)).1) (f (ext wt)).2 wt).

(** A computation that never calls [Commit] or [Rollback] on a
    transactional capability. *)
Definition no_completion `{Types} {A} (c : M A) : Prop :=
  forall w, completions (events (c w).2) = completions (events w).

(** ** A concrete program: a scripted driver

    The theorems below are instantiated on a small driver whose state
    records whether a transaction is open and which statements ran. Its
    transactional capability behaves like [*sql.Tx]: the first completion
    closes the transaction, later ones fail with [ErrTxDone]. *)

Module Demo.

Record driver := {
  tx_open : bool;
  ran : list string;
  printed : list string
}.

#[local] Instance demo_types : Types := {|
  W := driver;
  Ctx := nat;
  Err := string;
  PanicArg := string;
  Result := nat;
  Stmt := string;
  Rows := list string;
  Row := string;
  TxOptions := bool;
  sql_Tx := nat;
  Target := nat;
  SelectDataset := string;
  UpdateDataset := string;
  InsertDataset := string;
  DeleteDataset := string;
  TruncateDataset := string;
  Background := 0
|}.

Definition issue (q : string) (e : driver) : driver :=
  {| tx_open := tx_open e; ran := ran e ++ [q]; printed := printed e |}.

Definition set_open (b : bool) (e : driver) : driver :=
  {| tx_open := b; ran := ran e; printed := printed e |}.

Definition raw : SQL := {|
  sql_ExecContext ctx q args e := ((length (ran e), None), issue q e);
  sql_PrepareContext ctx q e := ((q, None), e);
  sql_QueryContext ctx q args e := (([q], None), issue q e);
  sql_QueryRowContext ctx q args e := (q, issue q e)
|}.

Definition ErrTxDone : string :=
  "sql: transaction has already been committed or rolled back".

(** Completion as [*sql.Tx] does it. *)
Definition complete (e : driver) : error * driver :=
  if tx_open e then (None, set_open false e) else (Some ErrTxDone, e).

Definition std_tx : SQLTx :=
  {| tx_SQL := raw; tx_Commit := complete; tx_Rollback := complete |}.

(** A transactional capability that accepts every completion. *)
Definition lax_tx : SQLTx :=
  {| tx_SQL := raw;
     tx_Commit e := (None, issue "COMMIT" e);
     tx_Rollback e := (None, issue "ROLLBACK" e) |}.

(** One whose rollback and commit fail. *)
Definition broken_tx : SQLTx :=
  {| tx_SQL := raw;
     tx_Commit e := (Some "driver: bad connection", e);
     tx_Rollback e := (Some "driver: bad connection", e) |}.

Definition good_db : SQLDatabase :=
  {| db_SQL := raw;
     db_Begin e := ((1, None), set_open true e);
     db_BeginTx ctx opts e := ((1, None), set_open true e) |}.

Definition down_db : SQLDatabase :=
  {| db_SQL := raw;
     db_Begin e := ((0, Some "dial tcp: connection refused"), e);
     db_BeginTx ctx opts e := ((0, Some "dial tcp: connection refused"), e) |}.

#[local] Instance demo_collaborators : Collaborators := {|
  sqlTx_methods _ := std_tx;
  newDataset_From dialect q from := dialect;
  newDataset_Select dialect q cols := dialect;
  newUpdateDataset_Table dialect q table := dialect;
  newInsertDataset_Into dialect q table := dialect;
  newDeleteDataset_From dialect q table := dialect;
  newTruncateDataset_Table dialect q table := dialect;
  exec_ScanStructsContext x ctx i := ret None;
  exec_ScanStructContext x ctx i := ret (true, None);
  exec_ScanValsContext x ctx i := ret None;
  exec_ScanValContext x ctx i := ret (true, None)
|}.

(** A logger that keeps the format strings it is given. *)
Definition keep : Logger :=
  {| Printf format v e :=
       {| tx_open := tx_open e; ran := ran e;
          printed := printed e ++ [Sprintf format v] |} |}.

Definition object (l : option Logger) (s : SQL) : DSL :=
  {| logger := l; dialect := "postgres"; sql := s; qf := None;
     qfOnce := {| done := false |} |}.

(** A world with one handle, at address 0. *)
Definition world (o : DSL) (open : bool) : World :=
  {| ext := {| tx_open := open; ran := []; printed := [] |};
     events := []; dsls := {[ 0 := o ]}; factories := 0 |}.

Definition traced : DSL := object (Some keep) raw.
Definition silent : DSL := object None raw.

Definition tx_over (t : SQLTx) : TxDatabase := {| tx_DSL := 0; Tx := t |}.
Definition db_over (b : SQLDatabase) : Database := {| db_DSL := 0; Db := b |}.

(** The world before any handle exists. *)
Definition empty_world : World :=
  {| ext := {| tx_open := false; ran := []; printed := [] |};
     events := []; dsls := ∅; factories := 0 |}.

(** The first factory allocated for the handle at address 0. *)
Definition Q0 : QueryFactory := {| qf_owner := 0; qf_id := 0 |}.

(** Three goroutines scheduled in turn. *)
Definition round_robin : list nat := concat (replicate 15 [0; 1; 2]).

(** The transaction is over. *)
Definition over (e : driver) : bool := negb (tx_open e).

(** A caller that completes more often than it should. *)
Definition busy_program : list op :=
  [OExec 0 "DELETE FROM t" []; OCommit; ORollback;
   OWrap [OCommit] (Return None)].

(** Work a caller may hand to [Wrap] or [WithTx]. *)
Definition delete_all (tx : TxDatabase) : M error :=
  Exec (tx_DSL tx) "DELETE FROM t" [] ;;
  ret None.

Definition failing : M error := ret (Some "insert failed").

Definition crashing : M error := panic (PanicWith "index out of range").


(** Work that commits by itself and reports success. *)
Definition commits_itself : M error :=
  Commit (tx_over std_tx) ;;
  ret None.

(** A transaction handle put together without its [DSL]. *)
Definition bare_tx : TxDatabase := {| tx_DSL := 5; Tx := std_tx |}.

(** The handle at address 0 once its query factory is built. *)
Definition with_factory : DSL :=
  {| logger := None; dialect := "postgres"; sql := raw; qf := Some Q0;
     qfOnce := {| done := true |} |}.

End Demo.

(** ** Facts *)

Section Facts.

Context `{Types}.

Implicit Types (w : World) (d : loc) (o : DSL) (l : Logger).
Implicit Types (op s query : string) (args : list value).

Lemma bind_val {A B} (c : M A) (k : A -> M B) w a w' :
  c w = (Val a, w') -> bind c k w = k a w'.
Proof. unfold bind. intros ->. reflexivity. Qed.

Lemma deref_some d o w : dsls w !! d = Some o -> deref d w = (Val o, w).
Proof. unfold deref. intros ->. reflexivity. Qed.

Lemma append_empty s : s +:+ "" = s.
Proof.
  induction s as [|c s IH]; [reflexivity|].
  change (String c s +:+ "") with (String c (s +:+ "")). by rewrite IH.
Qed.

Lemma Sprintf_op op : Sprintf "[goqu] %s" [VStr op] = "[goqu] " +:+ op.
Proof. cbn. rewrite append_empty. reflexivity. Qed.

Lemma Sprintf_query op s :
  Sprintf "[goqu] %s [query:=`%s`]" [VStr op; VStr s]
  = "[goqu] " +:+ op +:+ " [query:=`" +:+ s +:+ "`]".
Proof. cbn. reflexivity. Qed.

Lemma Sprintf_args op s args :
  Sprintf "[goqu] %s [query:=`%s` args:=%+v]" [VStr op; VStr s; VSlice args]
  = "[goqu] " +:+ op +:+ " [query:=`" +:+ s +:+ "` args:="
    +:+ fmt_v (VSlice args) +:+ "]".
Proof. cbn. reflexivity. Qed.

(** What [Trace] hands to the sink, in the three cases of the source. *)
Lemma Trace_logged d o l op s args w :
  dsls w !! d = Some o -> logger o = Some l ->
  exists format v,
    Trace d op s args w
    = (Val tt, log_event (EvPrintf (Sprintf format v))
                         (Printf l format v (ext w)) w)
    /\ Sprintf format v = spec_message op s args.
Proof.
  intros Hd Hl. unfold Trace. rewrite (bind_val _ _ _ _ _ (deref_some _ _ _ Hd)).
  rewrite Hl. destruct s as [|c s].
  - rewrite decide_False by (intros []; reflexivity).
    eexists _, _. split; [reflexivity|]. apply Sprintf_op.
  - rewrite decide_True by discriminate.
    destruct args as [|x args].
    + rewrite decide_False by (intros []; reflexivity).
      eexists _, _. split; [reflexivity|]. apply Sprintf_query.
    + rewrite decide_True by discriminate.
      eexists _, _. split; [reflexivity|]. apply Sprintf_args.
Qed.

Lemma Trace_silent d o op s args w :
  dsls w !! d = Some o -> logger o = None -> Trace d op s args w = (Val tt, w).
Proof.
  intros Hd Hl. unfold Trace. rewrite (bind_val _ _ _ _ _ (deref_some _ _ _ Hd)).
  rewrite Hl. reflexivity.
Qed.

(** [Trace] on a live handle always returns, and touches neither the store
    nor the factory counter. *)
Lemma Trace_returns d o op s args w :
  dsls w !! d = Some o ->
  exists w1, Trace d op s args w = (Val tt, w1)
             /\ dsls w1 = dsls w /\ factories w1 = factories w.
Proof.
  intros Hd. destruct (logger o) as [l|] eqn:Hl.
  - destruct (Trace_logged d o l op s args w Hd Hl) as (f & v & -> & _).
    eexists. split; [reflexivity|]. split; reflexivity.
  - rewrite (Trace_silent d o op s args w Hd Hl).
    eexists. split; [reflexivity|]. split; reflexivity.
Qed.

Lemma call_eq {A} (f : W -> A * W) (ev : A -> event) w :
  call f ev w = (Val (f (ext w)).1, log_event (ev (f (ext w)).1) (f (ext w)).2 w).
Proof. unfold call. destruct (f (ext w)). reflexivity. Qed.

Lemma traced_call {A} d o op s args (f : DSL -> W -> A * W) ev w :
  dsls w !! d = Some o ->
  passes_through (Trace d op s args ;; let* o := deref d in call (f o) ev)
                 (Trace d op s args) (f o) ev w.
Proof.
  intros Hd. destruct (Trace_returns d o op s args w Hd) as (w1 & Ht & Hs & _).
  exists w1. split; [exact Ht|].
  rewrite (bind_val _ _ _ _ _ Ht).
  assert (Hd1 : dsls w1 !! d = Some o) by (rewrite Hs; exact Hd).
  rewrite (bind_val _ _ _ _ _ (deref_some _ _ _ Hd1)). apply call_eq.
Qed.

(** C4. With a logger configured, [Trace] calls [Printf] of that logger
    once, with a format and operands that render to the message the
    specification prescribes for the three cases (SQL and arguments, SQL
    only, no SQL): that message is the one entry added to the log, and
    the logger's back end is in the state the call left. With no logger
    [Trace] does nothing at all. *)
Theorem Trace_emits_spec_message d o op s args w :
  dsls w !! d = Some o ->
  match logger o with
  | Some l =>
      exists format v,
        Sprintf format v = spec_message op s args /\
        Trace d op s args w
        = (Val tt, log_event (EvPrintf (spec_message op s args))
                             (Printf l format v (ext w)) w)
  | None => Trace d op s args w = (Val tt, w)
  end.
Proof.
  intros Hd. destruct (logger o) as [l|] eqn:Hl.
  - destruct (Trace_logged d o l op s args w Hd Hl) as (f & v & Ht & Hm).
    exists f, v. split; [exact Hm|]. rewrite <- Hm. exact Ht.
  - exact (Trace_silent d o op s args w Hd Hl).
Qed.

(** C5. Each of [ExecContext], [PrepareContext], [QueryContext],
    [QueryRowContext], [Commit] and [Rollback] calls its capability method
    once, after the trace, and returns exactly the value that call
    produced. *)
Theorem capability_results_pass_through d o (td : TxDatabase) o'
    (ctx : Ctx) query args w :
  dsls w !! d = Some o ->
  dsls w !! tx_DSL td = Some o' ->
  passes_through (ExecContext d ctx query args) (Trace d "EXEC" query args)
    (sql_ExecContext (sql o) ctx query args)
    (EvExecContext ctx query args) w /\
  passes_through (PrepareContext d ctx query) (Trace d "PREPARE" query [])
    (sql_PrepareContext (sql o) ctx query) (EvPrepareContext ctx query) w /\
  passes_through (QueryContext d ctx query args) (Trace d "QUERY" query args)
    (sql_QueryContext (sql o) ctx query args)
    (EvQueryContext ctx query args) w /\
  passes_through (QueryRowContext d ctx query args)
    (Trace d "QUERY ROW" query args)
    (sql_QueryRowContext (sql o) ctx query args)
    (EvQueryRowContext ctx query args) w /\
  passes_through (Commit td) (Trace (tx_DSL td) "COMMIT" "" [])
    (tx_Commit (Tx td)) EvCommit w /\
  passes_through (Rollback td) (Trace (tx_DSL td) "ROLLBACK" "" [])
    (tx_Rollback (Tx td)) EvRollback w.
Proof.
  intros Hd Htd. repeat split.
  - exact (traced_call d o _ _ _
             (fun o => sql_ExecContext (sql o) ctx query args) _ w Hd).
  - exact (traced_call d o _ _ _
             (fun o => sql_PrepareContext (sql o) ctx query) _ w Hd).
  - exact (traced_call d o _ _ _
             (fun o => sql_QueryContext (sql o) ctx query args) _ w Hd).
  - exact (traced_call d o _ _ _
             (fun o => sql_QueryRowContext (sql o) ctx query args) _ w Hd).
  - destruct (Trace_returns _ _ "COMMIT" "" [] w Htd) as (w1 & Ht & _).
    exists w1. split; [exact Ht|]. unfold Commit.
    rewrite (bind_val _ _ _ _ _ Ht). apply call_eq.
  - destruct (Trace_returns _ _ "ROLLBACK" "" [] w Htd) as (w1 & Ht & _).
    exists w1. split; [exact Ht|]. unfold Rollback.
    rewrite (bind_val _ _ _ _ _ Ht). apply call_eq.
Qed.

(** *** The completion protocol of [Wrap] *)

Lemma completions_app (l1 l2 : list event) :
  completions (l1 ++ l2) = completions l1 ++ completions l2.
Proof. apply filter_app. Qed.

Lemma completions_Trace d o op s args w w1 :
  dsls w !! d = Some o -> Trace d op s args w = (Val tt, w1) ->
  completions (events w1) = completions (events w) /\ dsls w1 = dsls w.
Proof.
  intros Hd Ht. destruct (logger o) as [l|] eqn:Hl.
  - destruct (Trace_logged d o l op s args w Hd Hl) as (f & v & Ht' & _).
    rewrite Ht' in Ht. injection Ht as <-. split; [|reflexivity].
    cbn. rewrite completions_app. apply app_nil_r.
  - rewrite (Trace_silent d o op s args w Hd Hl) in Ht.
    injection Ht as <-. split; reflexivity.
Qed.

Lemma Rollback_runs (td : TxDatabase) o w :
  dsls w !! tx_DSL td = Some o ->
  exists r w2,
    Rollback td w = (Val r, w2) /\
    completions (events w2) = completions (events w) ++ [EvRollback r] /\
    dsls w2 = dsls w.
Proof.
  intros Hd.
  destruct (Trace_returns _ _ "ROLLBACK" "" [] w Hd) as (w1 & Ht & _).
  destruct (completions_Trace _ _ _ _ _ _ _ Hd Ht) as [Hc Hs].
  unfold Rollback. rewrite (bind_val _ _ _ _ _ Ht), call_eq.
  eexists _, _. split; [reflexivity|]. cbn.
  rewrite completions_app, Hc. split; [reflexivity | exact Hs].
Qed.

Lemma Commit_runs (td : TxDatabase) o w :
  dsls w !! tx_DSL td = Some o ->
  exists r w2,
    Commit td w = (Val r, w2) /\
    completions (events w2) = completions (events w) ++ [EvCommit r] /\
    dsls w2 = dsls w.
Proof.
  intros Hd.
  destruct (Trace_returns _ _ "COMMIT" "" [] w Hd) as (w1 & Ht & _).
  destruct (completions_Trace _ _ _ _ _ _ _ Hd Ht) as [Hc Hs].
  unfold Commit. rewrite (bind_val _ _ _ _ _ Ht), call_eq.
  eexists _, _. split; [reflexivity|]. cbn.
  rewrite completions_app, Hc. split; [reflexivity | exact Hs].
Qed.

(** [Wrap] is its deferred function run on the outcome of [fn]. *)
Lemma Wrap_eq (td : TxDatabase) (fn : M error) w r w1 :
  fn w = (r, w1) -> Wrap td fn w = Wrap_deferred td r w1.
Proof. unfold Wrap. intros ->. reflexivity. Qed.

Lemma deferred_after_error (td : TxDatabase) o1 (E : Err) w1 :
  dsls w1 !! tx_DSL td = Some o1 ->
  exists r w2,
    Rollback td w1 = (Val r, w2) /\
    completions (events w2) = completions (events w1) ++ [EvRollback r] /\
    Wrap_deferred td (Val (Some E)) w1
    = (Val (match r with Some R => Some R | None => Some E end), w2).
Proof.
  intros Hd. destruct (Rollback_runs td o1 w1 Hd) as (r & w2 & Hr & Hc & _).
  exists r, w2. split; [exact Hr|]. split; [exact Hc|].
  cbn. rewrite (bind_val _ _ _ _ _ Hr). destruct r; reflexivity.
Qed.

Lemma deferred_after_success (td : TxDatabase) o1 w1 :
  dsls w1 !! tx_DSL td = Some o1 ->
  exists r w2,
    Commit td w1 = (Val r, w2) /\
    completions (events w2) = completions (events w1) ++ [EvCommit r] /\
    Wrap_deferred td (Val None) w1 = (Val r, w2).
Proof.
  intros Hd. destruct (Commit_runs td o1 w1 Hd) as (r & w2 & Hr & Hc & _).
  exists r, w2. split; [exact Hr|]. split; [exact Hc|].
  cbn. rewrite (bind_val _ _ _ _ _ Hr). destruct r; reflexivity.
Qed.


(** On a panic with nil, [recover] yields nil and the deferred function
    goes the way of a return of nil. *)
Lemma deferred_after_nil_panic (td : TxDatabase) w1 :
  Wrap_deferred td (Panic PanicNil) w1 = Wrap_deferred td (Val None) w1.
Proof. reflexivity. Qed.

(** C1. When [fn] returns a non-nil error [E], [Wrap] runs [Rollback] once
    and no [Commit]; it returns [E] if the rollback succeeds and the
    rollback's error if it fails. *)
Theorem Wrap_error_rolls_back (td : TxDatabase) o1 (fn : M error) (E : Err)
    w w1 :
  fn w = (Val (Some E), w1) ->
  dsls w1 !! tx_DSL td = Some o1 ->
  exists r w2,
    Rollback td w1 = (Val r, w2) /\
    completions (events w2) = completions (events w1) ++ [EvRollback r] /\
    Wrap td fn w
    = (Val (match r with Some R => Some R | None => Some E end), w2).
Proof.
  intros Hfn Hd. rewrite (Wrap_eq td fn w _ w1 Hfn).
  exact (deferred_after_error td o1 E w1 Hd).
Qed.


(** C3. When [fn] returns nil, [Wrap] runs [Commit] once and no
    [Rollback], and returns what the commit returned (nil on success, the
    commit's error otherwise). Whatever [fn] returns, a run of [Wrap] in
    which [fn] does not panic makes exactly one completion call. *)
Theorem Wrap_success_commits (td : TxDatabase) o1 (fn : M error) w w1 :
  dsls w1 !! tx_DSL td = Some o1 ->
  (fn w = (Val None, w1) ->
   exists r w2,
     Commit td w1 = (Val r, w2) /\
     completions (events w2) = completions (events w1) ++ [EvCommit r] /\
     Wrap td fn w = (Val r, w2)) /\
  (forall e, fn w = (Val e, w1) ->
   exists res w2 c,
     Wrap td fn w = (Val res, w2) /\
     is_completion c = true /\
     completions (events w2) = completions (events w1) ++ [c]).
Proof.
  intros Hd. split.
  - intros Hfn. rewrite (Wrap_eq td fn w _ w1 Hfn).
    exact (deferred_after_success td o1 w1 Hd).
  - intros [E|] Hfn; rewrite (Wrap_eq td fn w _ w1 Hfn).
    + destruct (deferred_after_error td o1 E w1 Hd)
        as (r & w2 & _ & Hc & Hw).
      eexists _, w2, _. split; [exact Hw|]. split; [|exact Hc]. reflexivity.
    + destruct (deferred_after_success td o1 w1 Hd)
        as (r & w2 & _ & Hc & Hw).
      eexists _, w2, _. split; [exact Hw|]. split; [|exact Hc]. reflexivity.
Qed.

(** *** Beginning a transaction *)

Context `{!Collaborators}.

Lemma fresh_loc_ne d o w : dsls w !! d = Some o -> fresh (dom (dsls w)) <> d.
Proof.
  intros Hd Heq. apply (is_fresh (dom (dsls w))).
  rewrite Heq. apply elem_of_dom. eauto.
Qed.

Lemma begun_failure (d : Database) (sqlTx : sql_Tx) (E : Err) w :
  begun d (sqlTx, Some E) w = (Val (None, Some E), w).
Proof. reflexivity. Qed.

Lemma begun_success (d : Database) o (sqlTx : sql_Tx) w :
  dsls w !! db_DSL d = Some o ->
  exists tx otx w2,
    begun d (sqlTx, None) w = (Val (Some tx, None), w2) /\
    Tx tx = sqlTx_methods sqlTx /\
    dsls w2 !! tx_DSL tx = Some otx /\
    dialect otx = dialect o /\
    logger otx = logger o /\
    tx_DSL tx <> db_DSL d /\
    dsls w2 !! db_DSL d = Some o /\
    events w2 = events w /\
    ext w2 = ext w.
Proof.
  intros Hd. pose proof (fresh_loc_ne _ _ _ Hd) as Hne.
  unfold begun, NewTx, newDSL, SetLogger, alloc, store, deref, bind, ret.
  rewrite Hd. cbn. rewrite lookup_insert_ne by exact Hne. rewrite Hd.
  cbn. rewrite lookup_insert_eq. cbn. rewrite lookup_insert_eq.
  eexists _, _, _. split; [reflexivity|]. cbn.
  rewrite lookup_insert_eq, lookup_insert_ne by exact Hne.
  rewrite lookup_insert_ne by exact Hne. repeat split; try reflexivity; assumption.
Qed.

Lemma begin_outcome_begun (d : Database) o w ev (sqlTx : sql_Tx) err e :
  dsls w !! db_DSL d = Some o ->
  begin_outcome d o w ev sqlTx err e
    (begun d (sqlTx, err) (log_event ev e w)).
Proof.
  intros Hd. destruct err as [E|]; [apply begun_failure|].
  destruct (begun_success d o sqlTx (log_event ev e w) Hd)
    as (tx & otx & w2 & Hb & ? & ? & ? & ? & ? & ? & Hev & Hext).
  exists tx, otx, w2. repeat split; try assumption.
Qed.

(** A handle comes back exactly when no error does. *)
Lemma begun_handle_iff_no_error (d : Database) r w tx err w' :
  begun d r w = (Val (tx, err), w') -> tx = None <-> err <> None.
Proof.
  destruct r as [sqlTx [E|]]; cbn.
  - intros [= <- <- <-]. split; [discriminate | reflexivity].
  - unfold bind.
    repeat match goal with
           | |- context [match ?c w with _ => _ end] =>
               destruct (c w) as [[?|?] ?]
           | |- context [match ?c ?w1 with _ => _ end] =>
               destruct (c w1) as [[?|?] ?]
           end;
      intros [=]; subst; split; congruence.
Qed.

Lemma Begin_handle_iff_no_error (d : Database) w tx err w' :
  Begin d w = (Val (tx, err), w') -> tx = None <-> err <> None.
Proof.
  unfold Begin, bind at 1, call. destruct (db_Begin (Db d) (ext w)) as [r e].
  apply begun_handle_iff_no_error.
Qed.

Lemma Begin_outcome_of (d : Database) o w :
  dsls w !! db_DSL d = Some o ->
  (forall sqlTx err e,
     db_Begin (Db d) (ext w) = ((sqlTx, err), e) ->
     begin_outcome d o w (EvBegin (sqlTx, err)) sqlTx err e (Begin d w)) /\
  (forall ctx opts sqlTx err e,
     db_BeginTx (Db d) ctx opts (ext w) = ((sqlTx, err), e) ->
     begin_outcome d o w (EvBeginTx ctx opts (sqlTx, err)) sqlTx err e
                   (BeginTx d ctx opts w)).
Proof.
  intros Hd. split.
  - intros sqlTx err e Hb. unfold Begin, bind, call. rewrite Hb.
    apply begin_outcome_begun, Hd.
  - intros ctx opts sqlTx err e Hb. unfold BeginTx, bind, call. rewrite Hb.
    apply begin_outcome_begun, Hd.
Qed.

(** C6. When the capability's [Begin] (or [BeginTx]) fails, the handle
    layer returns no transaction handle and that very error, and the log
    gains the capability call only, so the trace sink is not invoked; when
    it succeeds, the new handle carries the dialect and the logger of the
    database handle. *)
Theorem Begin_passes_error_or_inherits (d : Database) o w :
  dsls w !! db_DSL d = Some o ->
  (forall sqlTx err e,
     db_Begin (Db d) (ext w) = ((sqlTx, err), e) ->
     begin_outcome d o w (EvBegin (sqlTx, err)) sqlTx err e (Begin d w)) /\
  (forall ctx opts sqlTx err e,
     db_BeginTx (Db d) ctx opts (ext w) = ((sqlTx, err), e) ->
     begin_outcome d o w (EvBeginTx ctx opts (sqlTx, err)) sqlTx err e
                   (BeginTx d ctx opts w)).
Proof.
  intros Hd. split.
  - intros sqlTx err e Hb. unfold Begin, bind, call. rewrite Hb.
    apply begin_outcome_begun, Hd.
  - intros ctx opts sqlTx err e Hb. unfold BeginTx, bind, call. rewrite Hb.
    apply begin_outcome_begun, Hd.
Qed.

(** C7. [WithTx] returns the error of a failed [Begin] at once, having
    logged nothing but that call and without running [fn]; when [Begin]
    succeeds with handle [tx], it is one run of [Wrap] on [tx] with the
    work [fn tx], started in the world [Begin] left, and its outcome is
    that run's. *)
Theorem WithTx_begins_then_wraps (d : Database) o
    (fn : TxDatabase -> M error) w sqlTx err e :
  dsls w !! db_DSL d = Some o ->
  db_Begin (Db d) (ext w) = ((sqlTx, err), e) ->
  match err with
  | Some E =>
      WithTx d fn w = (Val (Some E), log_event (EvBegin (sqlTx, Some E)) e w)
  | None =>
      exists tx w1,
        Begin d w = (Val (Some tx, None), w1) /\
        WithTx d fn w = Wrap tx (fn tx) w1 /\
        Wrap tx (fn tx) w1 = Wrap_deferred tx (fn tx w1).1 (fn tx w1).2
  end.
Proof.
  intros Hd Hb.
  destruct (Begin_outcome_of d o w Hd) as [HB _].
  specialize (HB sqlTx err e Hb). unfold begin_outcome in HB.
  destruct err as [E|].
  - unfold WithTx. rewrite (bind_val _ _ _ _ _ HB). reflexivity.
  - destruct HB as (tx & otx & w1 & HB & _).
    exists tx, w1. split; [exact HB|]. split.
    + unfold WithTx. rewrite (bind_val _ _ _ _ _ HB). reflexivity.
    + unfold Wrap. destruct (fn tx w1). reflexivity.
Qed.

(** C10. Each context-free operation is its [Context] counterpart at
    [Background]: the two are the same computation, so they log, delegate
    and return alike; on a live handle the raw operations hand
    [Background] to the capability and return its value. *)
Theorem context_free_is_background d o (i : Target) query args w :
  dsls w !! d = Some o ->
  (Exec d query args w = ExecContext d Background query args w /\
   Prepare d query w = PrepareContext d Background query w /\
   Query d query args w = QueryContext d Background query args w /\
   QueryRow d query args w = QueryRowContext d Background query args w /\
   ScanStructs d i query args w
   = ScanStructsContext d Background i query args w /\
   ScanStruct d i query args w
   = ScanStructContext d Background i query args w /\
   ScanVals d i query args w = ScanValsContext d Background i query args w /\
   ScanVal d i query args w = ScanValContext d Background i query args w) /\
  (passes_through (Exec d query args) (Trace d "EXEC" query args)
     (sql_ExecContext (sql o) Background query args)
     (EvExecContext Background query args) w /\
   passes_through (Prepare d query) (Trace d "PREPARE" query [])
     (sql_PrepareContext (sql o) Background query)
     (EvPrepareContext Background query) w /\
   passes_through (Query d query args) (Trace d "QUERY" query args)
     (sql_QueryContext (sql o) Background query args)
     (EvQueryContext Background query args) w /\
   passes_through (QueryRow d query args) (Trace d "QUERY ROW" query args)
     (sql_QueryRowContext (sql o) Background query args)
     (EvQueryRowContext Background query args) w).
Proof.
  intros Hd. split; [repeat split|]. repeat split.
  - exact (traced_call d o _ _ _
             (fun o => sql_ExecContext (sql o) Background query args) _ w Hd).
  - exact (traced_call d o _ _ _
             (fun o => sql_PrepareContext (sql o) Background query) _ w Hd).
  - exact (traced_call d o _ _ _
             (fun o => sql_QueryContext (sql o) Background query args) _ w Hd).
  - exact (traced_call d o _ _ _
             (fun o => sql_QueryRowContext (sql o) Background query args) _ w Hd).
Qed.

(** *** The query factory, one caller at a time *)

Lemma store_some d o o' w :
  dsls w !! d = Some o ->
  store d o' w
  = (Val tt, {| ext := ext w; events := events w;
                dsls := <[d := o']> (dsls w); factories := factories w |}).
Proof. unfold store. intros ->. reflexivity. Qed.

Lemma queryFactory_first d o w :
  dsls w !! d = Some o -> done (qfOnce o) = false ->
  exists w',
    queryFactory d w
    = (Val (Some {| qf_owner := d; qf_id := factories w |}), w') /\
    events w'
    = events w ++ [EvNewQueryFactory {| qf_owner := d; qf_id := factories w |}] /\
    factories w' = S (factories w) /\
    ext w' = ext w /\
    dsls w'
    = <[d := {| logger := logger o; dialect := dialect o; sql := sql o;
                qf := Some {| qf_owner := d; qf_id := factories w |};
                qfOnce := {| done := true |} |}]> (dsls w).
Proof.
  intros Hd Hdone. set (q := {| qf_owner := d; qf_id := factories w |}).
  set (wq := {| ext := ext w; events := events w ++ [EvNewQueryFactory q];
                dsls := dsls w; factories := S (factories w) |}).
  assert (Hnew : NewQueryFactory d w = (Val q, wq)) by reflexivity.
  assert (Hdq : dsls wq !! d = Some o) by exact Hd.
  set (o1 := {| logger := logger o; dialect := dialect o; sql := sql o;
                qf := Some q; qfOnce := qfOnce o |}).
  pose proof (store_some d o o1 wq Hdq) as Hst1.
  set (w1 := {| ext := ext wq; events := events wq;
                dsls := <[d := o1]> (dsls wq); factories := factories wq |})
    in Hst1.
  assert (Hd1 : dsls w1 !! d = Some o1) by apply lookup_insert_eq.
  set (o2 := {| logger := logger o1; dialect := dialect o1; sql := sql o1;
                qf := qf o1; qfOnce := {| done := true |} |}).
  pose proof (store_some d o1 o2 w1 Hd1) as Hst2.
  set (w2 := {| ext := ext w1; events := events w1;
                dsls := <[d := o2]> (dsls w1); factories := factories w1 |})
    in Hst2.
  assert (Hd2 : dsls w2 !! d = Some o2) by apply lookup_insert_eq.
  exists w2. split.
  - unfold queryFactory. erewrite bind_val; cycle 1.
    + unfold qfOnce_Do.
      rewrite (bind_val _ _ _ _ _ (deref_some _ _ _ Hd)), Hdone.
      rewrite (bind_val _ _ _ _ _ Hnew).
      rewrite (bind_val _ _ _ _ _ (deref_some _ _ _ Hdq)).
      fold o1. rewrite Hst1.
      rewrite (bind_val _ _ _ _ _ (deref_some _ _ _ Hd1)).
      fold o2. rewrite Hst2. reflexivity.
    + rewrite (bind_val _ _ _ _ _ (deref_some _ _ _ Hd2)). reflexivity.
  - repeat split; try reflexivity. cbn. apply insert_insert_eq.
Qed.

Lemma queryFactory_later d o w :
  dsls w !! d = Some o -> done (qfOnce o) = true ->
  queryFactory d w = (Val (qf o), w).
Proof.
  intros Hd Hdone. unfold queryFactory, qfOnce_Do, deref, bind, ret.
  rewrite Hd, Hdone. rewrite Hd. reflexivity.
Qed.

Lemma factory_use_unfold d o {A} (c : M A) k w :
  dsls w !! d = Some o -> factory_use d o c k ->
  c w = (let* q := queryFactory d in k q) w.
Proof.
  intros Hd Hu.
  destruct Hu; try reflexivity;
    unfold From, Select, Update, Insert, Delete, Truncate;
    rewrite (bind_val _ _ _ _ _ (deref_some _ _ _ Hd)); reflexivity.
Qed.

End Facts.

(** ** The once machine keeps its invariant *)

Section OnceFacts.

Variables (d : loc) (k : nat).

Let Q : QueryFactory := {| qf_owner := d; qf_id := k |}.

Lemma start_inv n : once_inv Q k (start k n).
Proof.
  split; cbn.
  - intros j p [-> _]%lookup_replicate. discriminate.
  - discriminate.
  - intros _. split; reflexivity.
  - intros j p [-> _]%lookup_replicate. exact I.
Qed.

(** A finished factory is the one the invariant names. *)
Lemma inv_done st :
  once_inv Q k st -> s_done st.1 = true ->
  s_qf st.1 = Some Q /\ s_factories st.1 = S k.
Proof.
  intros [Hm Hh Hi Hw] Hd. destruct (s_mutex st.1) as [i|] eqn:Hmx.
  - destruct (Hh i eq_refl) as (p & _ & Hp).
    destruct p; cbn in Hp; try contradiction; unfold data_ok in *;
      rewrite ?Hd in Hp; intuition congruence.
  - specialize (Hi eq_refl). unfold data_ok in Hi. rewrite Hd in Hi. exact Hi.
Qed.

Lemma inv_factories st : once_inv Q k st -> s_factories st.1 <= S k.
Proof.
  intros [Hm Hh Hi Hw]. destruct (s_mutex st.1) as [i|] eqn:Hmx.
  - destruct (Hh i eq_refl) as (p & _ & Hp).
    destruct p; cbn in Hp; try contradiction; unfold data_ok in *;
      destruct (s_done st.1); lia.
  - specialize (Hi eq_refl). unfold data_ok in Hi.
    destruct (s_done st.1); lia.
Qed.

(** The goroutine that moves from a critical point holds the mutex. *)
Lemma inv_self st i p :
  once_inv Q k st -> st.2 !! i = Some p -> critical p = true ->
  s_mutex st.1 = Some i /\ holder_ok Q k st.1 p.
Proof.
  intros [Hm Hh Hi Hw] Hp Hc. pose proof (Hm i p Hp Hc) as Hmx.
  split; [exact Hmx|]. destruct (Hh i Hmx) as (p' & Hp' & Hok).
  rewrite Hp in Hp'. injection Hp' as <-. exact Hok.
Qed.

(** Rebuilding the invariant after goroutine [i] moved from [p] to [p'],
    the shared memory going from [s] to [s']. *)
Lemma inv_rebuild s ts i p s' p' :
  once_inv Q k (s, ts) ->
  ts !! i = Some p ->
  (forall j, j <> i -> s_mutex s' = Some j <-> s_mutex s = Some j) ->
  (critical p' = true <-> s_mutex s' = Some i) ->
  (critical p' = true -> holder_ok Q k s' p') ->
  (s_mutex s' = None -> data_ok Q k s') ->
  waiter_ok Q s' p' ->
  (forall j pj, j <> i -> ts !! j = Some pj ->
     (s_mutex s = Some j -> holder_ok Q k s pj -> holder_ok Q k s' pj) /\
     (waiter_ok Q s pj -> waiter_ok Q s' pj)) ->
  once_inv Q k (s', <[i := p']> ts).
Proof.
  intros [Hm Hh Hi Hw] Hp Hothers Hself Hhold Hidle Hwait Hpres.
  cbn [fst snd] in *.
  assert (Hlt : i < length ts) by (eapply lookup_lt_Some; eauto).
  split; cbn [fst snd].
  - intros j pj Hj Hc. destruct (decide (j = i)) as [->|Hne].
    + rewrite list_lookup_insert_eq in Hj by exact Hlt.
      injection Hj as <-. apply Hself, Hc.
    + rewrite list_lookup_insert_ne in Hj by congruence.
      apply Hothers; [exact Hne|]. exact (Hm j pj Hj Hc).
  - intros j Hj. destruct (decide (j = i)) as [->|Hne].
    + exists p'. rewrite list_lookup_insert_eq by exact Hlt.
      split; [reflexivity|]. apply Hhold, Hself, Hj.
    + apply Hothers in Hj; [|exact Hne].
      destruct (Hh j Hj) as (pj & Hpj & Hok). exists pj.
      rewrite list_lookup_insert_ne by congruence. split; [exact Hpj|].
      exact (proj1 (Hpres j pj Hne Hpj) Hj Hok).
  - exact Hidle.
  - intros j pj Hj. destruct (decide (j = i)) as [->|Hne].
    + rewrite list_lookup_insert_eq in Hj by exact Hlt.
      injection Hj as <-. exact Hwait.
    + rewrite list_lookup_insert_ne in Hj by congruence.
      exact (proj2 (Hpres j pj Hne Hj) (Hw j pj Hj)).
Qed.

Lemma waiter_ok_done s s' p :
  (s_done s = true -> s_done s' = true) -> waiter_ok Q s p -> waiter_ok Q s' p.
Proof. intros Hd. destruct p; cbn; intuition auto. Qed.

(** Every step keeps the invariant. *)
Lemma step_inv st i : once_inv Q k st -> once_inv Q k (step d i st).
Proof.
  intros Hinv. destruct st as [s ts]. unfold step. cbn [fst snd].
  destruct (ts !! i) as [p|] eqn:Hp; [|exact Hinv].
  pose proof (inv_waiter _ _ _ Hinv i p Hp) as Hwp.
  pose proof (inv_self (s, ts) i p Hinv Hp) as Hself.
  pose proof (inv_holder _ _ _ Hinv i) as Hhi.
  pose proof (inv_idle _ _ _ Hinv) as Hidle.
  pose proof (inv_done (s, ts) Hinv) as Hdone.
  cbn [fst snd] in *.
  assert (Hfree : critical p = false -> s_mutex s <> Some i).
  { intros Hc Hmx. destruct (Hhi Hmx) as (p0 & Hp0 & Hok).
    rewrite Hp in Hp0. injection Hp0 as <-.
    destruct p; cbn in Hc, Hok; congruence || contradiction. }
  destruct p; cbn [thread_step].
  - (* Enter *)
    apply (inv_rebuild s ts i Enter _ _ Hinv Hp).
    + intros j _. reflexivity.
    + destruct (s_done s); cbn;
        (split; [discriminate | intros Hmx; exfalso; exact (Hfree eq_refl Hmx)]).
    + destruct (s_done s); discriminate.
    + exact Hidle.
    + destruct (s_done s) eqn:Hd; cbn; auto.
    + intros j pj _ _. split; auto.
  - (* Lock *)
    destruct (s_mutex s) as [h|] eqn:Hmx; [exact Hinv|].
    apply (inv_rebuild s ts i Lock _ _ Hinv Hp); cbn.
    + intros j Hne. rewrite Hmx. split; congruence.
    + split; reflexivity.
    + intros _. exact (Hidle eq_refl).
    + discriminate.
    + exact I.
    + intros j pj Hne Hj. split; [rewrite Hmx; discriminate|].
      apply waiter_ok_done. auto.
  - (* Check *)
    destruct (Hself eq_refl) as [Hmx Hok]. cbn in Hok. unfold data_ok in Hok.
    apply (inv_rebuild s ts i Check _ _ Hinv Hp).
    + intros j _. reflexivity.
    + destruct (s_done s); cbn; (split; auto).
    + destruct (s_done s) eqn:Hd; cbn; rewrite ?Hd; intuition auto.
    + exact Hidle.
    + destruct (s_done s); exact I.
    + intros j pj _ _. split; auto.
  - (* Build *)
    destruct (Hself eq_refl) as [Hmx (Hd & Hq & Hf)].
    apply (inv_rebuild s ts i Build _ _ Hinv Hp); cbn.
    + intros j _. reflexivity.
    + split; auto.
    + intros _. rewrite Hf. subst Q. auto.
    + rewrite Hmx. discriminate.
    + exact I.
    + intros j pj Hne Hj. split; [intros Hmj; exfalso; congruence|].
      apply waiter_ok_done. auto.
  - (* Assign *)
    destruct (Hself eq_refl) as [Hmx (Hd & -> & Hq & Hf)].
    apply (inv_rebuild s ts i (Assign Q) _ _ Hinv Hp); cbn.
    + intros j _. reflexivity.
    + split; auto.
    + auto.
    + rewrite Hmx. discriminate.
    + exact I.
    + intros j pj Hne Hj. split; [intros Hmj; exfalso; congruence|].
      apply waiter_ok_done. auto.
  - (* SetDone *)
    destruct (Hself eq_refl) as [Hmx (Hd & Hq & Hf)].
    apply (inv_rebuild s ts i SetDone _ _ Hinv Hp); cbn.
    + intros j _. reflexivity.
    + split; auto.
    + auto.
    + rewrite Hmx. discriminate.
    + exact I.
    + intros j pj Hne Hj. split; [intros Hmj; exfalso; congruence|].
      apply waiter_ok_done. auto.
  - (* Unlock *)
    destruct (Hself eq_refl) as [Hmx (Hd & Hq & Hf)].
    apply (inv_rebuild s ts i Unlock _ _ Hinv Hp); cbn.
    + intros j Hne. rewrite Hmx. split; congruence.
    + split; discriminate.
    + discriminate.
    + intros _. unfold data_ok. cbn. rewrite Hd. auto.
    + exact Hd.
    + intros j pj Hne Hj. split; [intros Hmj; exfalso; congruence|].
      apply waiter_ok_done. auto.
  - (* Read *)
    cbn in Hwp. destruct (Hdone Hwp) as [Hq _].
    apply (inv_rebuild s ts i Read _ _ Hinv Hp); cbn.
    + intros j _. reflexivity.
    + split; [discriminate|]. intros Hmx. exfalso. exact (Hfree eq_refl Hmx).
    + discriminate.
    + exact Hidle.
    + auto.
    + intros j pj _ _. split; auto.
  - (* Returned *)
    exact Hinv.
Qed.

Lemma run_inv schedule st :
  once_inv Q k st -> once_inv Q k (run d schedule st).
Proof.
  revert st. induction schedule as [|i schedule IH]; intros st Hinv.
  - exact Hinv.
  - cbn. apply IH, step_inv, Hinv.
Qed.

End OnceFacts.

(** ** The query factory is built once *)

Section FactoryFacts.

Context `{Types} `{!Collaborators}.

(** X14. The machine runs the code of [queryFactory]: one goroutine alone,
    started on the once and the [qf] field of a handle, ends with the
    value and the fields that [queryFactory] yields. *)
Lemma solo_run_is_queryFactory d o w :
  dsls w !! d = Some o ->
  exists r w' o',
    queryFactory d w = (Val r, w') /\
    dsls w' !! d = Some o' /\
    run d (replicate 9 0)
        ({| s_done := done (qfOnce o); s_mutex := None; s_qf := qf o;
            s_factories := factories w |}, [Enter])
    = ({| s_done := done (qfOnce o'); s_mutex := None; s_qf := qf o';
          s_factories := factories w' |}, [Returned r]).
Proof.
  intros Hd. destruct (done (qfOnce o)) eqn:Hdone.
  - exists (qf o), w, o. rewrite (queryFactory_later d o w Hd Hdone).
    rewrite Hdone. split; [reflexivity|]. split; [exact Hd|]. reflexivity.
  - destruct (queryFactory_first d o w Hd Hdone)
      as (w' & Hq & _ & Hf & _ & Hs).
    eexists _, w', _. split; [exact Hq|]. split.
    + rewrite Hs. apply lookup_insert_eq.
    + rewrite Hf. reflexivity.
Qed.

Lemma queryFactory_built d q w :
  built d q w -> queryFactory d w = (Val (Some q), w).
Proof.
  intros (o & Hd & Hdone & Hq).
  rewrite (queryFactory_later d o w Hd Hdone), Hq. reflexivity.
Qed.

Lemma repeatM_built d q w n :
  built d q w ->
  repeatM n (queryFactory d) w = (Val (replicate n (Some q)), w).
Proof.
  intros Hb. induction n as [|n IH]; [reflexivity|].
  cbn [repeatM replicate].
  rewrite (bind_val _ _ _ _ _ (queryFactory_built d q w Hb)).
  rewrite (bind_val _ _ _ _ _ IH). reflexivity.
Qed.

(** C8, as the code has it. The factory of a handle is built at most
    once. Sequentially: the first operation that obtains the factory, a
    scan or a dataset constructor alike, builds it, publishes it in the
    handle and marks the once; every later call finds the once done,
    builds nothing, changes nothing and gets the stored factory.
    Concurrently: however the callers of [queryFactory] interleave, at
    most one factory is allocated and every caller that has returned holds
    that one. *)
Theorem queryFactory_built_once (d : loc) :
  (forall (o : DSL) (w : World) n,
     dsls w !! d = Some o -> done (qfOnce o) = false ->
     exists w',
       repeatM (S n) (queryFactory d) w
       = (Val (replicate (S n)
                 (Some {| qf_owner := d; qf_id := factories w |})), w') /\
       events w'
       = events w
         ++ [EvNewQueryFactory {| qf_owner := d; qf_id := factories w |}]) /\
  (forall (o : DSL) (w : World) (A : Type) (c : M A) k,
     dsls w !! d = Some o -> factory_use d o c k ->
     if done (qfOnce o)
     then queryFactory d w = (Val (qf o), w) /\ c w = k (qf o) w
     else
       exists w',
         queryFactory d w
         = (Val (Some {| qf_owner := d; qf_id := factories w |}), w') /\
         events w'
         = events w
           ++ [EvNewQueryFactory {| qf_owner := d; qf_id := factories w |}] /\
         built d {| qf_owner := d; qf_id := factories w |} w' /\
         c w = k (Some {| qf_owner := d; qf_id := factories w |}) w') /\
  (forall q (w : World),
     built d q w -> queryFactory d w = (Val (Some q), w)) /\
  (forall k n schedule,
     s_factories (run d schedule (start k n)).1 <= S k /\
     forall i r,
       (run d schedule (start k n)).2 !! i = Some (Returned r) ->
       r = Some {| qf_owner := d; qf_id := k |} /\
       s_factories (run d schedule (start k n)).1 = S k).
Proof.
  split; [|split; [|split]].
  - intros o w n Hd Hdone.
    destruct (queryFactory_first d o w Hd Hdone)
      as (w' & Hq & He & _ & _ & Hs).
    exists w'. split; [|exact He]. cbn [repeatM replicate].
    rewrite (bind_val _ _ _ _ _ Hq).
    assert (Hb : built d {| qf_owner := d; qf_id := factories w |} w').
    { eexists. rewrite Hs, lookup_insert_eq. repeat split. }
    rewrite (bind_val _ _ _ _ _ (repeatM_built d _ w' n Hb)). reflexivity.
  - intros o w A c k Hd Hu.
    pose proof (factory_use_unfold d o c k w Hd Hu) as Hc.
    destruct (done (qfOnce o)) eqn:Hdone.
    + pose proof (queryFactory_later d o w Hd Hdone) as Hq.
      split; [exact Hq|]. rewrite Hc. apply (bind_val _ _ _ _ _ Hq).
    + destruct (queryFactory_first d o w Hd Hdone)
        as (w' & Hq & He & _ & _ & Hs).
      exists w'. split; [exact Hq|]. split; [exact He|]. split.
      * eexists. rewrite Hs, lookup_insert_eq. repeat split.
      * rewrite Hc. apply (bind_val _ _ _ _ _ Hq).
  - intros q w (o & Hd & Hdone & Hq).
    rewrite (queryFactory_later d o w Hd Hdone), Hq. reflexivity.
  - intros k n schedule.
    pose proof (run_inv d k schedule _ (start_inv d k n)) as Hinv.
    split; [exact (inv_factories d k _ Hinv)|].
    intros i r Hi. destruct (inv_waiter _ _ _ Hinv i _ Hi) as [Hdone ->].
    split; [reflexivity|]. exact (proj2 (inv_done d k _ Hinv Hdone)).
Qed.

End FactoryFacts.

(** ** Completions over a capability that completes once *)

Section CompletionFacts.

Context `{Types}.
Variable closed : W -> bool.
Variable td : TxDatabase.
Hypothesis Hshot : one_shot closed (Tx td).

Lemma advance_refl w : advance closed td w w.
Proof.
  intros Hg. split; [exact Hg|]. split; [lia|].
  split; [intros Hc; split; [exact Hc | reflexivity] | intros Hs; lia].
Qed.

Lemma advance_trans w w1 w2 :
  advance closed td w w1 -> advance closed td w1 w2 -> advance closed td w w2.
Proof.
  intros H1 H2 Hg. destruct (H1 Hg) as (Hg1 & Hn1 & Hc1 & Hs1).
  destruct (H2 Hg1) as (Hg2 & Hn2 & Hc2 & Hs2).
  split; [exact Hg2|].
  destruct (decide (effected w1 = S (effected w))) as [Hup|Hsame].
  - specialize (Hs1 Hup). destruct (Hc2 Hs1) as [Hcl Heq].
    split; [lia|]. split.
    + intros Hcw. destruct (Hc1 Hcw). lia.
    + intros _. exact Hcl.
  - assert (effected w1 = effected w) as Heq by lia.
    split; [lia|]. split.
    + intros Hcw. destruct (Hc1 Hcw) as [Hcl _].
      destruct (Hc2 Hcl). split; [assumption | lia].
    + intros Hup. apply Hs2. lia.
Qed.

Lemma safe_ret {A} (a : A) : safe closed td (ret a).
Proof. intros w. apply advance_refl. Qed.

Lemma safe_panic {A} p : safe closed td (@panic _ A p).
Proof. intros w. apply advance_refl. Qed.

Lemma safe_bind {A B} (c : M A) (k : A -> M B) :
  safe closed td c -> (forall a, safe closed td (k a)) -> safe closed td (bind c k).
Proof.
  intros Hc Hk w. unfold bind. specialize (Hc w).
  destruct (c w) as [[a|p] w1]; cbn in *.
  - eapply advance_trans; [exact Hc | apply Hk].
  - exact Hc.
Qed.

Lemma took_effect_snoc evs ev :
  took_effect (evs ++ [ev])
  = took_effect evs ++ (if effective ev then [ev] else []).
Proof.
  unfold took_effect. rewrite filter_app. f_equal.
  cbn. unfold filter. cbn. destruct (effective ev); reflexivity.
Qed.

(** A call that is no completion and keeps [closed]. *)
Lemma advance_quiet w ev e :
  effective ev = false ->
  (good closed td w -> closed (ext w) = true -> closed e = true) ->
  advance closed td w (log_event ev e w).
Proof.
  intros Hev Hcl Hg. specialize (Hcl Hg). unfold effected. cbn.
  rewrite took_effect_snoc, Hev, app_nil_r.
  split; [exact Hg|]. split; [lia|].
  split; [intros Hc; split; [auto | reflexivity] | intros; lia].
Qed.

(** A completion call on the capability. *)
Lemma advance_completion w (r : error) e ev :
  ev = EvCommit r \/ ev = EvRollback r ->
  (r = None -> closed e = true) ->
  (closed (ext w) = true -> r <> None /\ closed e = true) ->
  advance closed td w (log_event ev e w).
Proof.
  intros Hev Hok Hno Hg. unfold effected. cbn. rewrite took_effect_snoc.
  assert (effective ev = match r with None => true | Some _ => false end)
    as -> by (destruct Hev as [-> | ->]; destruct r; reflexivity).
  destruct r as [E|]; rewrite ?app_nil_r, ?length_app; cbn.
  - split; [exact Hg|]. split; [lia|]. split.
    + intros Hcw. split; [apply Hno, Hcw | reflexivity].
    + intros; lia.
  - split; [exact Hg|]. split; [lia|]. split.
    + intros Hcw. destruct (Hno Hcw) as [Hne _]. congruence.
    + intros _. apply Hok. reflexivity.
Qed.

Lemma safe_Trace op s args : safe closed td (Trace (tx_DSL td) op s args).
Proof.
  intros w. destruct (dsls w !! tx_DSL td) as [o|] eqn:Hd.
  - destruct (logger o) as [l|] eqn:Hl.
    + destruct (Trace_logged _ o l op s args w Hd Hl) as (f & v & -> & _).
      apply advance_quiet; [reflexivity|].
      intros Hg Hc. exact (printf_keeps _ _ (Hg o Hd) l _ _ _ Hl Hc).
    + rewrite (Trace_silent _ o op s args w Hd Hl). apply advance_refl.
  - unfold Trace, bind, deref. rewrite Hd. apply advance_refl.
Qed.

(** A statement sent through the handle: no completion, nothing reopened. *)
Lemma safe_statement {A} (f : DSL -> W -> A * W) (ev : A -> event) :
  (forall a, effective (ev a) = false) ->
  (forall o e, keeps_closed closed o ->
               closed e = true -> closed (f o e).2 = true) ->
  safe closed td (let* o := deref (tx_DSL td) in call (f o) ev).
Proof.
  intros Hev Hf w. unfold bind, deref.
  destruct (dsls w !! tx_DSL td) as [o|] eqn:Hd; [|apply advance_refl].
  rewrite call_eq. apply advance_quiet; [apply Hev|].
  intros Hg Hc. exact (Hf o _ (Hg o Hd) Hc).
Qed.

Lemma safe_Commit : safe closed td (Commit td).
Proof.
  apply safe_bind; [apply safe_Trace|]. intros _ w. rewrite call_eq.
  apply (advance_completion w (tx_Commit (Tx td) (ext w)).1); [auto|..].
  - apply (commit_closes _ _ Hshot).
  - apply (commit_refused _ _ Hshot).
Qed.

Lemma safe_Rollback : safe closed td (Rollback td).
Proof.
  apply safe_bind; [apply safe_Trace|]. intros _ w. rewrite call_eq.
  apply (advance_completion w (tx_Rollback (Tx td) (ext w)).1); [auto|..].
  - apply (rollback_closes _ _ Hshot).
  - apply (rollback_refused _ _ Hshot).
Qed.

Lemma safe_Wrap_deferred r : safe closed td (Wrap_deferred td r).
Proof.
  destruct r as [[E|]|[|v|]]; cbn.
  - apply safe_bind; [apply safe_Rollback|]. intros [R|]; apply safe_ret.
  - apply safe_bind; [apply safe_Commit|]. intros [C|]; apply safe_ret.
  - apply safe_bind; [apply safe_Rollback|]. intros _. apply safe_panic.
  - apply safe_bind; [apply safe_Rollback|]. intros _. apply safe_panic.
  - apply safe_bind; [apply safe_Commit|]. intros [C|]; apply safe_ret.
Qed.

Lemma safe_Wrap (fn : M error) :
  safe closed td fn -> safe closed td (Wrap td fn).
Proof.
  intros Hfn w. unfold Wrap. specialize (Hfn w).
  destruct (fn w) as [r w1]. cbn in Hfn.
  eapply advance_trans; [exact Hfn | apply safe_Wrap_deferred].
Qed.

Lemma safe_seqM (cs : list (M unit)) :
  Forall (safe closed td) cs -> safe closed td (seqM cs).
Proof.
  induction 1 as [|c cs Hc _ IH]; [apply safe_ret|].
  cbn. apply safe_bind; [exact Hc | intros _; exact IH].
Qed.

Lemma safe_finish fin : safe closed td (finish fin).
Proof. destruct fin; [apply safe_ret | apply safe_panic]. Qed.

Lemma safe_run_op : forall o, safe closed td (run_op td o).
Proof.
  fix IH 1. intros [ | |ctx q a|ctx q|ctx q a|ctx q a|body fin]; cbn [run_op].
  - apply safe_bind; [apply safe_Commit | intros _; apply safe_ret].
  - apply safe_bind; [apply safe_Rollback | intros _; apply safe_ret].
  - apply safe_bind; [|intros _; apply safe_ret].
    apply safe_bind; [apply safe_Trace | intros _].
    apply (safe_statement (fun o => sql_ExecContext (sql o) ctx q a));
      [reflexivity|]. intros o e Hk. apply (exec_keeps _ _ Hk).
  - apply safe_bind; [|intros _; apply safe_ret].
    apply safe_bind; [apply safe_Trace | intros _].
    apply (safe_statement (fun o => sql_PrepareContext (sql o) ctx q));
      [reflexivity|]. intros o e Hk. apply (prepare_keeps _ _ Hk).
  - apply safe_bind; [|intros _; apply safe_ret].
    apply safe_bind; [apply safe_Trace | intros _].
    apply (safe_statement (fun o => sql_QueryContext (sql o) ctx q a));
      [reflexivity|]. intros o e Hk. apply (query_keeps _ _ Hk).
  - apply safe_bind; [|intros _; apply safe_ret].
    apply safe_bind; [apply safe_Trace | intros _].
    apply (safe_statement (fun o => sql_QueryRowContext (sql o) ctx q a));
      [reflexivity|]. intros o e Hk. apply (queryRow_keeps _ _ Hk).
  - apply safe_bind; [|intros _; apply safe_ret].
    apply safe_Wrap. apply safe_bind; [|intros _; apply safe_finish].
    apply safe_seqM. induction body as [|x body IHbody]; constructor.
    + apply IH.
    + exact IHbody.
Qed.

Lemma safe_run_ops prog : safe closed td (run_ops td prog).
Proof.
  apply safe_seqM. induction prog as [|x prog IHprog]; constructor.
  - apply safe_run_op.
  - exact IHprog.
Qed.

(** C9, as the code has it. A [TxDatabase] keeps no completion state:
    [Commit], [Rollback] and [Wrap] forward every completion to the
    capability. Over a capability that completes once, whatever program of
    completions, statements and nested [Wrap]s runs on the handle: at most
    one completion takes effect; one that does leaves the transaction
    over; and a transaction that is over stays so, with no further
    completion taking effect. *)
Theorem one_shot_completes_at_most_once (prog : list op) (w : World) :
  good closed td w ->
  length (took_effect (events w))
  <= length (took_effect (events (run_ops td prog w).2))
  <= S (length (took_effect (events w))) /\
  (length (took_effect (events (run_ops td prog w).2))
   = S (length (took_effect (events w))) ->
   closed (ext (run_ops td prog w).2) = true) /\
  (closed (ext w) = true ->
   closed (ext (run_ops td prog w).2) = true /\
   length (took_effect (events (run_ops td prog w).2))
   = length (took_effect (events w))).
Proof.
  intros Hg. destruct (safe_run_ops prog w Hg) as (_ & Hn & Hc & Hs).
  split; [exact Hn|]. split; [exact Hs | exact Hc].
Qed.

End CompletionFacts.

(** ** Handles: constructors, dialect, logger *)

Section HandleFacts.

Context `{Types} `{!Collaborators}.

Lemma fresh_loc_none (w : World) : dsls w !! fresh (dom (dsls w)) = None.
Proof. apply not_elem_of_dom, is_fresh. Qed.

Lemma newDSL_new_handle dialect0 (s : SQL) (w : World) :
  exists d w',
    newDSL dialect0 s w = (Val d, w') /\ new_handle d dialect0 s w w'.
Proof.
  pose proof (fresh_loc_none w) as Hf.
  set (d := fresh (dom (dsls w))) in *.
  set (o := {| logger := None; dialect := dialect0; sql := s; qf := None;
               qfOnce := {| done := false |} |}).
  exists d, (with_object d o w). split; [reflexivity|].
  assert (Hd : dsls (with_object d o w) !! d = Some o)
    by apply lookup_insert_eq.
  split; [exact Hf|]. split.
  { intros d0 o0 Hold. cbn. rewrite lookup_insert_ne; [exact Hold|].
    intros ->. congruence. }
  split; [reflexivity|]. split; [reflexivity|]. split.
  { unfold Dialect. rewrite (bind_val _ _ _ _ _ (deref_some _ _ _ Hd)).
    reflexivity. }
  split.
  { intros op q args. exact (Trace_silent d o op q args _ Hd eq_refl). }
  split.
  { intros ctx q args.
    exact (traced_call d o _ _ _
             (fun o => sql_ExecContext (sql o) ctx q args) _ _ Hd). }
  exists o. repeat split. exact Hd.
Qed.

(** X1. [newDatabase] and [NewTx] make a handle that is new (no handle of
    the world is touched, nothing is logged or sent), reports the dialect
    it was given, traces nothing until a logger is set, sends its
    statements to the capability it was given, and has no query factory
    yet. *)
Theorem constructors_make_new_handles dialect0 (db : SQLDatabase)
    (t : SQLTx) (w : World) :
  (exists d w',
     newDatabase dialect0 db w = (Val d, w') /\ Db d = db /\
     new_handle (db_DSL d) dialect0 db w w') /\
  (exists td w',
     NewTx dialect0 t w = (Val td, w') /\ Tx td = t /\
     new_handle (tx_DSL td) dialect0 t w w').
Proof.
  split.
  - destruct (newDSL_new_handle dialect0 db w) as (d & w' & Hn & Hh).
    exists {| db_DSL := d; Db := db |}, w'.
    split; [|split; [reflexivity | exact Hh]].
    unfold newDatabase. rewrite (bind_val _ _ _ _ _ Hn). reflexivity.
  - destruct (newDSL_new_handle dialect0 t w) as (d & w' & Hn & Hh).
    exists {| tx_DSL := d; Tx := t |}, w'.
    split; [|split; [reflexivity | exact Hh]].
    unfold NewTx. rewrite (bind_val _ _ _ _ _ Hn). reflexivity.
Qed.

Lemma SetLogger_live d o l (w : World) :
  dsls w !! d = Some o ->
  SetLogger d l w = (Val tt, with_object d (with_logger l o) w).
Proof.
  intros Hd. unfold SetLogger.
  rewrite (bind_val _ _ _ _ _ (deref_some _ _ _ Hd)).
  exact (store_some d o _ w Hd).
Qed.

(** X2. [Logger] on a live handle replaces the logger and nothing else:
    dialect, connection, query factory and once stay, other handles stay,
    nothing is logged or sent. From then on [Trace] calls [Printf] of the
    new logger, once, with a format and operands that render to the
    prescribed message, or does nothing when the new logger is nil; and
    of two calls in a row the second wins. *)
Theorem Logger_sets_only_the_logger d o (l : option Logger) (w : World) :
  dsls w !! d = Some o ->
  SetLogger d l w = (Val tt, with_object d (with_logger l o) w) /\
  (forall d0, d0 <> d ->
     dsls (with_object d (with_logger l o) w) !! d0 = dsls w !! d0) /\
  (forall op q args,
     match l with
     | Some l' =>
         exists format v,
           Sprintf format v = spec_message op q args /\
           Trace d op q args (with_object d (with_logger l o) w)
           = (Val tt, log_event (EvPrintf (spec_message op q args))
                                (Printf l' format v (ext w))
                                (with_object d (with_logger l o) w))
     | None =>
         Trace d op q args (with_object d (with_logger l o) w)
         = (Val tt, with_object d (with_logger l o) w)
     end) /\
  (forall l0,
     (SetLogger d l0 ;; SetLogger d l) w = SetLogger d l w).
Proof.
  intros Hd.
  assert (Hd' : dsls (with_object d (with_logger l o) w) !! d
                = Some (with_logger l o)) by apply lookup_insert_eq.
  split; [exact (SetLogger_live d o l w Hd)|]. split.
  { intros d0 Hne. cbn. apply lookup_insert_ne. congruence. }
  split.
  { intros op q args. destruct l as [l|].
    - destruct (Trace_logged d _ l op q args _ Hd' eq_refl)
        as (f & v & Ht & Hm).
      exists f, v. split; [exact Hm|]. rewrite <- Hm. exact Ht.
    - exact (Trace_silent d _ op q args _ Hd' eq_refl). }
  intros l0.
  rewrite (bind_val _ _ _ _ _ (SetLogger_live d o l0 w Hd)).
  assert (Hd0 : dsls (with_object d (with_logger l0 o) w) !! d
                = Some (with_logger l0 o)) by apply lookup_insert_eq.
  rewrite (SetLogger_live d _ l _ Hd0), (SetLogger_live d o l w Hd).
  unfold with_object, with_logger. cbn. rewrite insert_insert_eq.
  reflexivity.
Qed.

(** *** The handle of a transaction *)

Lemma begun_success_world (d : Database) o (sqlTx : sql_Tx) ev e
    (w : World) :
  dsls w !! db_DSL d = Some o ->
  begun d (sqlTx, None) (log_event ev e w)
  = (Val (Some {| tx_DSL := fresh (dom (dsls w));
                  Tx := sqlTx_methods sqlTx |}, None),
     begun_world ev e o (sqlTx_methods sqlTx) w).
Proof.
  intros Hd. pose proof (fresh_loc_ne _ _ _ Hd) as Hne.
  set (t := fresh (dom (dsls w))) in *.
  set (w0 := log_event ev e w).
  assert (Hd0 : dsls w0 !! db_DSL d = Some o) by exact Hd.
  set (o1 := {| logger := None; dialect := dialect o;
                sql := sqlTx_methods sqlTx; qf := None;
                qfOnce := {| done := false |} |}).
  assert (Hnew : NewTx (dialect o) (sqlTx_methods sqlTx) w0
                 = (Val {| tx_DSL := t; Tx := sqlTx_methods sqlTx |},
                    with_object t o1 w0)) by reflexivity.
  assert (Hd1 : dsls (with_object t o1 w0) !! db_DSL d = Some o).
  { cbn. rewrite lookup_insert_ne by exact Hne. exact Hd. }
  assert (Ht1 : dsls (with_object t o1 w0) !! t = Some o1)
    by apply lookup_insert_eq.
  unfold begun.
  rewrite (bind_val _ _ _ _ _ (deref_some _ _ _ Hd0)).
  rewrite (bind_val _ _ _ _ _ Hnew).
  rewrite (bind_val _ _ _ _ _ (deref_some _ _ _ Hd1)).
  cbn [tx_DSL]. rewrite (bind_val _ _ _ _ _ (SetLogger_live t o1 _ _ Ht1)).
  unfold ret, begun_world, with_object, with_logger, tx_object. cbn.
  rewrite insert_insert_eq. reflexivity.
Qed.

Lemma Begin_success_world (d : Database) o (sqlTx : sql_Tx) e (w : World) :
  dsls w !! db_DSL d = Some o ->
  db_Begin (Db d) (ext w) = ((sqlTx, None), e) ->
  Begin d w
  = (Val (Some {| tx_DSL := fresh (dom (dsls w));
                  Tx := sqlTx_methods sqlTx |}, None),
     begun_world (EvBegin (sqlTx, None)) e o (sqlTx_methods sqlTx) w).
Proof.
  intros Hd Hb. unfold Begin, bind at 1, call. rewrite Hb.
  exact (begun_success_world d o sqlTx _ e w Hd).
Qed.

Lemma BeginTx_success_world (d : Database) o ctx opts (sqlTx : sql_Tx) e
    (w : World) :
  dsls w !! db_DSL d = Some o ->
  db_BeginTx (Db d) ctx opts (ext w) = ((sqlTx, None), e) ->
  BeginTx d ctx opts w
  = (Val (Some {| tx_DSL := fresh (dom (dsls w));
                  Tx := sqlTx_methods sqlTx |}, None),
     begun_world (EvBeginTx ctx opts (sqlTx, None)) e o
                 (sqlTx_methods sqlTx) w).
Proof.
  intros Hd Hb. unfold BeginTx, bind at 1, call. rewrite Hb.
  exact (begun_success_world d o sqlTx _ e w Hd).
Qed.

Lemma begun_world_tx ev e o (t : SQLTx) (w : World) :
  dsls (begun_world ev e o t w) !! fresh (dom (dsls w))
  = Some (tx_object o t).
Proof. apply lookup_insert_eq. Qed.

Lemma begun_world_old ev e o (t : SQLTx) (w : World) d0 o0 :
  dsls w !! d0 = Some o0 -> dsls (begun_world ev e o t w) !! d0 = Some o0.
Proof.
  intros H0'. cbn. rewrite lookup_insert_ne; [exact H0'|].
  apply (fresh_loc_ne _ _ _ H0').
Qed.

Lemma begun_world_transaction_handle ev e o (t : SQLTx) (w : World) :
  transaction_handle {| tx_DSL := fresh (dom (dsls w)); Tx := t |} t
    (factories w) (begun_world ev e o t w).
Proof.
  pose proof (begun_world_tx ev e o t w) as Ht.
  split; [reflexivity|]. cbn [tx_DSL].
  split; [intros ctx q a;
          exact (traced_call _ _ _ _ _
                   (fun o => sql_ExecContext (sql o) ctx q a) _ _ Ht)|].
  split; [intros ctx q;
          exact (traced_call _ _ _ _ _
                   (fun o => sql_PrepareContext (sql o) ctx q) _ _ Ht)|].
  split; [intros ctx q a;
          exact (traced_call _ _ _ _ _
                   (fun o => sql_QueryContext (sql o) ctx q a) _ _ Ht)|].
  split; [intros ctx q a;
          exact (traced_call _ _ _ _ _
                   (fun o => sql_QueryRowContext (sql o) ctx q a) _ _ Ht)|].
  destruct (queryFactory_first _ _ _ Ht eq_refl) as (w2 & Hq & _).
  exists w2. exact Hq.
Qed.

(** X3. The handle that [Begin] or [BeginTx] returns is bound to the
    transaction the capability opened: [ExecContext], [PrepareContext],
    [QueryContext] and [QueryRowContext] on it call that transaction, not
    the database connection, and its first use of the query factory builds
    a factory owned by the transaction handle, whatever factory the
    database handle holds. *)
Theorem Begin_binds_handle_to_transaction (d : Database) o (w : World) :
  dsls w !! db_DSL d = Some o ->
  (forall sqlTx e,
     db_Begin (Db d) (ext w) = ((sqlTx, None), e) ->
     exists tx w1,
       Begin d w = (Val (Some tx, None), w1) /\
       transaction_handle tx (sqlTx_methods sqlTx) (factories w) w1) /\
  (forall ctx opts sqlTx e,
     db_BeginTx (Db d) ctx opts (ext w) = ((sqlTx, None), e) ->
     exists tx w1,
       BeginTx d ctx opts w = (Val (Some tx, None), w1) /\
       transaction_handle tx (sqlTx_methods sqlTx) (factories w) w1).
Proof.
  intros Hd. split.
  - intros sqlTx e Hb. eexists _, _.
    split; [exact (Begin_success_world d o sqlTx e w Hd Hb)|].
    apply begun_world_transaction_handle.
  - intros ctx opts sqlTx e Hb. eexists _, _.
    split; [exact (BeginTx_success_world d o ctx opts sqlTx e w Hd Hb)|].
    apply begun_world_transaction_handle.
Qed.

(** X4. The logger is copied when the transaction begins: setting the
    logger of the database handle afterwards leaves the transaction's
    logger as it was, and setting the transaction's logger leaves the
    database handle's. *)
Theorem Begin_copies_the_logger (d : Database) o (sqlTx : sql_Tx) e
    (w : World) :
  dsls w !! db_DSL d = Some o ->
  db_Begin (Db d) (ext w) = ((sqlTx, None), e) ->
  exists tx w1,
    Begin d w = (Val (Some tx, None), w1) /\
    forall l,
      (exists w2 otx,
         SetLogger (db_DSL d) l w1 = (Val tt, w2) /\
         dsls w2 !! tx_DSL tx = Some otx /\ logger otx = logger o) /\
      (exists w2 od,
         SetLogger (tx_DSL tx) l w1 = (Val tt, w2) /\
         dsls w2 !! db_DSL d = Some od /\ logger od = logger o).
Proof.
  intros Hd Hb. pose proof (fresh_loc_ne _ _ _ Hd) as Hne.
  eexists _, _. split; [exact (Begin_success_world d o sqlTx e w Hd Hb)|].
  set (w1 := begun_world _ e o _ w).
  pose proof (begun_world_tx (EvBegin (sqlTx, None)) e o
                (sqlTx_methods sqlTx) w) as Ht.
  pose proof (begun_world_old (EvBegin (sqlTx, None)) e o
                (sqlTx_methods sqlTx) w _ _ Hd) as Hd1.
  fold w1 in Ht, Hd1. cbn [tx_DSL]. intros l. split.
  - eexists _, _. split; [exact (SetLogger_live _ _ l w1 Hd1)|]. split.
    + cbn -[w1]. rewrite lookup_insert_ne by congruence. exact Ht.
    + reflexivity.
  - eexists _, _. split; [exact (SetLogger_live _ _ l w1 Ht)|]. split.
    + cbn -[w1]. rewrite lookup_insert_ne by exact Hne. exact Hd1.
    + reflexivity.
Qed.

(** X5. Two transactions begun from one database handle are two handles:
    their addresses differ from each other and from the database
    handle's, and beginning the second leaves the first one's object as
    it was. *)
Theorem Begin_twice_gives_two_handles (d : Database) o
    (sqlTx1 sqlTx2 : sql_Tx) e1 e2 (w : World) :
  dsls w !! db_DSL d = Some o ->
  db_Begin (Db d) (ext w) = ((sqlTx1, None), e1) ->
  db_Begin (Db d) e1 = ((sqlTx2, None), e2) ->
  exists tx1 tx2 w1 w2,
    Begin d w = (Val (Some tx1, None), w1) /\
    Begin d w1 = (Val (Some tx2, None), w2) /\
    tx_DSL tx1 <> tx_DSL tx2 /\
    tx_DSL tx1 <> db_DSL d /\
    tx_DSL tx2 <> db_DSL d /\
    dsls w2 !! tx_DSL tx1 = dsls w1 !! tx_DSL tx1 /\
    dsls w2 !! tx_DSL tx1 = Some (tx_object o (sqlTx_methods sqlTx1)) /\
    events w2 = events w ++ [EvBegin (sqlTx1, None); EvBegin (sqlTx2, None)].
Proof.
  intros Hd Hb1 Hb2.
  set (w1 := begun_world (EvBegin (sqlTx1, None)) e1 o
               (sqlTx_methods sqlTx1) w).
  pose proof (begun_world_tx (EvBegin (sqlTx1, None)) e1 o
                (sqlTx_methods sqlTx1) w) as Ht1.
  pose proof (begun_world_old (EvBegin (sqlTx1, None)) e1 o
                (sqlTx_methods sqlTx1) w _ _ Hd) as Hd1.
  fold w1 in Ht1, Hd1.
  assert (Hb2' : db_Begin (Db d) (ext w1) = ((sqlTx2, None), e2))
    by exact Hb2.
  eexists _, _, w1, _.
  split; [exact (Begin_success_world d o sqlTx1 e1 w Hd Hb1)|].
  split; [exact (Begin_success_world d o sqlTx2 e2 w1 Hd1 Hb2')|].
  cbn [tx_DSL].
  pose proof (fresh_loc_ne _ _ _ Ht1) as Hne12.
  pose proof (begun_world_old (EvBegin (sqlTx2, None)) e2 o
                (sqlTx_methods sqlTx2) w1 _ _ Ht1) as Hkeep.
  split; [congruence|]. split; [exact (fresh_loc_ne _ _ _ Hd)|].
  split; [exact (fresh_loc_ne _ _ _ Hd1)|].
  split; [rewrite Hkeep, Ht1; reflexivity|]. split; [exact Hkeep|].
  cbn. rewrite <- app_assoc. reflexivity.
Qed.

(** X6. The query factory and the logger of a handle do not disturb
    each other: [Logger] on a handle whose factory is built leaves it
    built, so the next call of [queryFactory] returns the same factory and
    builds nothing; and [queryFactory] leaves logger, dialect and
    connection of the handle as they were. *)
Theorem factory_and_logger_are_independent d (w : World) :
  (forall q l,
     built d q w ->
     exists w',
       SetLogger d l w = (Val tt, w') /\
       built d q w' /\
       queryFactory d w' = (Val (Some q), w')) /\
  (forall o,
     dsls w !! d = Some o ->
     exists r o',
       (queryFactory d w).1 = Val r /\
       dsls (queryFactory d w).2 !! d = Some o' /\
       logger o' = logger o /\ dialect o' = dialect o /\ sql o' = sql o).
Proof.
  split.
  - intros q l (o & Hd & Hdone & Hq).
    exists (with_object d (with_logger l o) w).
    split; [exact (SetLogger_live d o l w Hd)|].
    assert (Hd' : dsls (with_object d (with_logger l o) w) !! d
                  = Some (with_logger l o)) by apply lookup_insert_eq.
    split; [exists (with_logger l o); repeat split; assumption|].
    rewrite (queryFactory_later d _ _ Hd' Hdone). cbn. rewrite Hq.
    reflexivity.
  - intros o Hd. destruct (done (qfOnce o)) eqn:Hdone.
    + rewrite (queryFactory_later d o w Hd Hdone).
      exists (qf o), o. repeat split. exact Hd.
    + destruct (queryFactory_first d o w Hd Hdone)
        as (w' & -> & _ & _ & _ & Hs).
      eexists _, _. split; [reflexivity|]. cbn [snd].
      rewrite Hs, lookup_insert_eq. repeat split.
Qed.

End HandleFacts.

(** ** Transactions end to end, and what never completes one *)

Section TransactionFacts.

Context `{Types} `{!Collaborators}.

Lemma Commit_on_capability (td : TxDatabase) o w :
  dsls w !! tx_DSL td = Some o ->
  exists wt,
    Trace (tx_DSL td) "COMMIT" "" [] w = (Val tt, wt) /\
    completions (events wt) = completions (events w) /\
    Commit td w
    = (Val (tx_Commit (Tx td) (ext wt)).1,
       log_event (EvCommit (tx_Commit (Tx td) (ext wt)).1)
                 (tx_Commit (Tx td) (ext wt)).2 wt).
Proof.
  intros Hd.
  destruct (Trace_returns _ _ "COMMIT" "" [] w Hd) as (wt & Ht & _).
  destruct (completions_Trace _ _ _ _ _ _ _ Hd Ht) as [Hc _].
  exists wt. split; [exact Ht|]. split; [exact Hc|].
  unfold Commit. rewrite (bind_val _ _ _ _ _ Ht). apply call_eq.
Qed.

Lemma Rollback_on_capability (td : TxDatabase) o w :
  dsls w !! tx_DSL td = Some o ->
  exists wt,
    Trace (tx_DSL td) "ROLLBACK" "" [] w = (Val tt, wt) /\
    completions (events wt) = completions (events w) /\
    Rollback td w
    = (Val (tx_Rollback (Tx td) (ext wt)).1,
       log_event (EvRollback (tx_Rollback (Tx td) (ext wt)).1)
                 (tx_Rollback (Tx td) (ext wt)).2 wt).
Proof.
  intros Hd.
  destruct (Trace_returns _ _ "ROLLBACK" "" [] w Hd) as (wt & Ht & _).
  destruct (completions_Trace _ _ _ _ _ _ _ Hd Ht) as [Hc _].
  exists wt. split; [exact Ht|]. split; [exact Hc|].
  unfold Rollback. rewrite (bind_val _ _ _ _ _ Ht). apply call_eq.
Qed.

(** X7. [WithTx], once [Begin] has succeeded, completes the transaction
    that [Begin] opened, once, after the work: it calls [Commit] of that
    transaction when the work returned nil, and [Rollback] of it when the
    work returned an error or panicked. The call is the one completion
    added to the log and leaves the collaborators in the state the
    capability's method produced. [WithTx] returns the commit's result,
    or the work's error unless the rollback failed, or panics with the
    work's panic value. A panic with nil on a runtime whose [recover]
    reports nil for it goes the way of a return of nil. *)
Theorem WithTx_completes_the_transaction (d : Database) o
    (fn : TxDatabase -> M error) (sqlTx : sql_Tx) e (w : World) :
  dsls w !! db_DSL d = Some o ->
  db_Begin (Db d) (ext w) = ((sqlTx, None), e) ->
  exists tx w1,
    Begin d w = (Val (Some tx, None), w1) /\
    Tx tx = sqlTx_methods sqlTx /\
    forall r w2 o2,
      fn tx w1 = (r, w2) ->
      dsls w2 !! tx_DSL tx = Some o2 ->
      match r with
      | Val None | Panic PanicNil =>
          completes_with (WithTx d fn w)
            (Trace (tx_DSL tx) "COMMIT" "" [])
            (tx_Commit (sqlTx_methods sqlTx)) EvCommit Val w2
      | Val (Some E) =>
          completes_with (WithTx d fn w)
            (Trace (tx_DSL tx) "ROLLBACK" "" [])
            (tx_Rollback (sqlTx_methods sqlTx)) EvRollback
            (fun x => Val (match x with Some R => Some R | None => Some E end))
            w2
      | Panic p =>
          completes_with (WithTx d fn w)
            (Trace (tx_DSL tx) "ROLLBACK" "" [])
            (tx_Rollback (sqlTx_methods sqlTx)) EvRollback
            (fun _ => Panic p) w2
      end.
Proof.
  intros Hd Hb. pose proof (Begin_success_world d o sqlTx e w Hd Hb) as HB.
  eexists _, _. split; [exact HB|]. split; [reflexivity|].
  intros r w2 o2 Hfn Hlive.
  unfold WithTx. rewrite (bind_val _ _ _ _ _ HB).
  rewrite (Wrap_eq _ _ _ _ _ Hfn).
  destruct (Commit_on_capability _ o2 w2 Hlive) as (wc & Htc & Hcc & HC).
  destruct (Rollback_on_capability _ o2 w2 Hlive) as (wr & Htr & Hcr & HR).
  cbn [Tx] in HC, HR.
  destruct r as [[E|]|[|v|]]; cbn [Wrap_deferred recover].
  - exists wr. split; [exact Htr|]. split; [exact Hcr|].
    rewrite (bind_val _ _ _ _ _ HR).
    destruct (tx_Rollback (sqlTx_methods sqlTx) (ext wr)).1; reflexivity.
  - exists wc. split; [exact Htc|]. split; [exact Hcc|].
    rewrite (bind_val _ _ _ _ _ HC).
    destruct (tx_Commit (sqlTx_methods sqlTx) (ext wc)).1; reflexivity.
  - exists wr. split; [exact Htr|]. split; [exact Hcr|].
    rewrite (bind_val _ _ _ _ _ HR). reflexivity.
  - exists wr. split; [exact Htr|]. split; [exact Hcr|].
    rewrite (bind_val _ _ _ _ _ HR). reflexivity.
  - exists wc. split; [exact Htc|]. split; [exact Hcc|].
    rewrite (bind_val _ _ _ _ _ HC).
    destruct (tx_Commit (sqlTx_methods sqlTx) (ext wc)).1; reflexivity.
Qed.

(** *** Operations that never complete a transaction *)

Lemma nc_ret {A} (a : A) : no_completion (ret a).
Proof. intros w. reflexivity. Qed.

Lemma nc_panic {A} p : no_completion (@panic _ A p).
Proof. intros w. reflexivity. Qed.

Lemma nc_bind {A B} (c : M A) (k : A -> M B) :
  no_completion c -> (forall a, no_completion (k a)) ->
  no_completion (bind c k).
Proof.
  intros Hc Hk w. unfold bind. specialize (Hc w).
  destruct (c w) as [[a|p] w1]; cbn in *.
  - rewrite (Hk a w1). exact Hc.
  - exact Hc.
Qed.

Lemma nc_deref d : no_completion (deref d).
Proof. intros w. unfold deref. destruct (dsls w !! d); reflexivity. Qed.

Lemma nc_store d o : no_completion (store d o).
Proof. intros w. unfold store. destruct (dsls w !! d); reflexivity. Qed.

Lemma nc_alloc o : no_completion (alloc o).
Proof. intros w. reflexivity. Qed.

Lemma nc_call {A} (f : W -> A * W) (ev : A -> event) :
  (forall a, is_completion (ev a) = false) -> no_completion (call f ev).
Proof.
  intros Hev w. rewrite call_eq. cbn.
  rewrite completions_app. unfold completions at 2. cbn.
  unfold filter. cbn. rewrite Hev. cbn. apply app_nil_r.
Qed.

Lemma nc_Trace d op s args : no_completion (Trace d op s args).
Proof.
  apply nc_bind; [apply nc_deref|]. intros o.
  destruct (logger o) as [l|]; [|apply nc_ret].
  repeat case_decide; apply nc_call; reflexivity.
Qed.

Lemma nc_SetLogger d l : no_completion (SetLogger d l).
Proof. apply nc_bind; [apply nc_deref | intros o; apply nc_store]. Qed.

Lemma nc_qfOnce_Do d (f : M unit) :
  no_completion f -> no_completion (qfOnce_Do d f).
Proof.
  intros Hf. apply nc_bind; [apply nc_deref|]. intros o.
  destruct (done (qfOnce o)); [apply nc_ret|].
  intros w. cbv beta. specialize (Hf w).
  destruct (f w) as [r w1]. cbn [snd] in Hf.
  pose proof (nc_bind (deref d)
                (fun o1 => store d {| logger := logger o1;
                                      dialect := dialect o1;
                                      sql := sql o1; qf := qf o1;
                                      qfOnce := {| done := true |} |})
                (nc_deref d) (fun o1 => nc_store d _) w1) as Hs.
  destruct (bind _ _ w1) as [[u|p] w2]; cbn [snd] in *; congruence.
Qed.

Lemma nc_queryFactory d : no_completion (queryFactory d).
Proof.
  apply nc_bind.
  - apply nc_qfOnce_Do. apply nc_bind.
    + intros w. cbn. rewrite completions_app. apply app_nil_r.
    + intros q. apply nc_bind; [apply nc_deref | intros o; apply nc_store].
  - intros _. apply nc_bind; [apply nc_deref | intros o; apply nc_ret].
Qed.

Lemma nc_statement {A} d op s args (f : DSL -> W -> A * W) ev :
  (forall a, is_completion (ev a) = false) ->
  no_completion (Trace d op s args ;; let* o := deref d in call (f o) ev).
Proof.
  intros Hev. apply nc_bind; [apply nc_Trace|]. intros _.
  apply nc_bind; [apply nc_deref|]. intros o. apply nc_call, Hev.
Qed.

Lemma nc_dataset {A} d (k : DSL -> option QueryFactory -> A) :
  no_completion (let* o := deref d in
                 let* q := queryFactory d in ret (k o q)).
Proof.
  apply nc_bind; [apply nc_deref|]. intros o.
  apply nc_bind; [apply nc_queryFactory|]. intros q. apply nc_ret.
Qed.

Lemma nc_begun (d : Database) r : no_completion (begun d r).
Proof.
  destruct r as [sqlTx [E|]]; [apply nc_ret|]. unfold begun.
  apply nc_bind; [apply nc_deref|]. intros o.
  apply nc_bind.
  { apply nc_bind; [apply nc_alloc | intros t; apply nc_ret]. }
  intros tx. apply nc_bind; [apply nc_deref|]. intros o'.
  apply nc_bind; [apply nc_SetLogger | intros _; apply nc_ret].
Qed.

(** X8. Only [Commit], [Rollback] and [Wrap] complete a transaction: no
    other operation of a handle calls [Commit] or [Rollback] on a
    capability, with any arguments, on any handle, live or nil, in any
    world. *)
Theorem only_Commit_Rollback_Wrap_complete d (db : Database) ctx opts
    op query args (l : option Logger) table :
  no_completion (Trace d op query args) /\
  no_completion (ExecContext d ctx query args) /\
  no_completion (Exec d query args) /\
  no_completion (PrepareContext d ctx query) /\
  no_completion (Prepare d query) /\
  no_completion (QueryContext d ctx query args) /\
  no_completion (Query d query args) /\
  no_completion (QueryRowContext d ctx query args) /\
  no_completion (QueryRow d query args) /\
  no_completion (SetLogger d l) /\
  no_completion (Dialect d) /\
  no_completion (queryFactory d) /\
  no_completion (From d args) /\
  no_completion (Select d args) /\
  no_completion (Update d table) /\
  no_completion (Insert d table) /\
  no_completion (Delete d table) /\
  no_completion (Truncate d args) /\
  no_completion (Begin db) /\
  no_completion (BeginTx db ctx opts).
Proof.
  repeat split.
  - apply nc_Trace.
  - apply (nc_statement d _ _ _ (fun o => sql_ExecContext (sql o) _ _ _)).
    reflexivity.
  - apply (nc_statement d _ _ _ (fun o => sql_ExecContext (sql o) _ _ _)).
    reflexivity.
  - apply (nc_statement d _ _ _ (fun o => sql_PrepareContext (sql o) _ _)).
    reflexivity.
  - apply (nc_statement d _ _ _ (fun o => sql_PrepareContext (sql o) _ _)).
    reflexivity.
  - apply (nc_statement d _ _ _ (fun o => sql_QueryContext (sql o) _ _ _)).
    reflexivity.
  - apply (nc_statement d _ _ _ (fun o => sql_QueryContext (sql o) _ _ _)).
    reflexivity.
  - apply (nc_statement d _ _ _
             (fun o => sql_QueryRowContext (sql o) _ _ _)).
    reflexivity.
  - apply (nc_statement d _ _ _
             (fun o => sql_QueryRowContext (sql o) _ _ _)).
    reflexivity.
  - apply nc_SetLogger.
  - apply nc_bind; [apply nc_deref | intros o; apply nc_ret].
  - apply nc_queryFactory.
  - apply (nc_dataset d (fun o q => newDataset_From (dialect o) q args)).
  - apply (nc_dataset d (fun o q => newDataset_Select (dialect o) q args)).
  - apply (nc_dataset d
             (fun o q => newUpdateDataset_Table (dialect o) q table)).
  - apply (nc_dataset d
             (fun o q => newInsertDataset_Into (dialect o) q table)).
  - apply (nc_dataset d
             (fun o q => newDeleteDataset_From (dialect o) q table)).
  - apply (nc_dataset d
             (fun o q => newTruncateDataset_Table (dialect o) q args)).
  - apply nc_bind; [apply nc_call; reflexivity | intros r; apply nc_begun].
  - apply nc_bind; [apply nc_call; reflexivity | intros r; apply nc_begun].
Qed.

End TransactionFacts.

(** ** Work that completes the transaction itself *)

Section OwnCompletionFacts.

Context `{Types}.
Variable closed : W -> bool.
Variable td : TxDatabase.
Hypothesis Hshot : one_shot closed (Tx td).

Lemma Trace_after_close op s args (w : World) o :
  good closed td w ->
  dsls w !! tx_DSL td = Some o ->
  closed (ext w) = true ->
  exists w',
    Trace (tx_DSL td) op s args w = (Val tt, w') /\
    closed (ext w') = true /\
    completions (events w') = completions (events w) /\
    took_effect (events w') = took_effect (events w).
Proof.
  intros Hg Hd Hc. destruct (logger o) as [l|] eqn:Hl.
  - destruct (Trace_logged _ o l op s args w Hd Hl) as (f & v & Ht & _).
    eexists. split; [exact Ht|]. cbn. split.
    { exact (printf_keeps _ _ (Hg o Hd) l f v _ Hl Hc). }
    split.
    + rewrite completions_app. apply app_nil_r.
    + rewrite took_effect_snoc. apply app_nil_r.
  - exists w. split; [exact (Trace_silent _ o op s args w Hd Hl)|].
    repeat split. exact Hc.
Qed.

(** X9. When the transaction is already over as the work returns (the
    work committed or rolled back by itself), the completion that [Wrap]
    then attempts is refused by a capability that completes once, and
    [Wrap] returns that refusal: never nil, even if the work succeeded,
    and in place of the work's own error if it failed. Nothing takes
    effect a second time. *)
Theorem Wrap_reports_refusal_after_own_completion (fn : M error)
    (e : error) (w w1 : World) o1 :
  good closed td w1 ->
  dsls w1 !! tx_DSL td = Some o1 ->
  fn w = (Val e, w1) ->
  closed (ext w1) = true ->
  exists R w2,
    Wrap td fn w = (Val (Some R), w2) /\
    completions (events w2)
    = completions (events w1)
      ++ [match e with
          | None => EvCommit (Some R)
          | Some _ => EvRollback (Some R)
          end] /\
    took_effect (events w2) = took_effect (events w1).
Proof.
  intros Hg Hd Hfn Hc. rewrite (Wrap_eq td fn w _ w1 Hfn).
  destruct e as [E|]; cbn [Wrap_deferred recover].
  - destruct (Trace_after_close "ROLLBACK" "" [] w1 o1 Hg Hd Hc)
      as (w' & Ht & Hc' & Hcs & Hte).
    destruct (rollback_refused _ _ Hshot (ext w') Hc') as [Hne _].
    destruct (tx_Rollback (Tx td) (ext w')) as [[R|] e'] eqn:Hr;
      [|contradiction Hne; reflexivity].
    assert (Hroll : Rollback td w1
                    = (Val (Some R), log_event (EvRollback (Some R)) e' w')).
    { unfold Rollback. rewrite (bind_val _ _ _ _ _ Ht).
      unfold call. rewrite Hr. reflexivity. }
    exists R. eexists. split.
    + rewrite (bind_val _ _ _ _ _ Hroll). reflexivity.
    + cbn. rewrite completions_app, took_effect_snoc, Hcs, Hte.
      split; [reflexivity | apply app_nil_r].
  - destruct (Trace_after_close "COMMIT" "" [] w1 o1 Hg Hd Hc)
      as (w' & Ht & Hc' & Hcs & Hte).
    destruct (commit_refused _ _ Hshot (ext w') Hc') as [Hne _].
    destruct (tx_Commit (Tx td) (ext w')) as [[R|] e'] eqn:Hr;
      [|contradiction Hne; reflexivity].
    assert (Hcom : Commit td w1
                   = (Val (Some R), log_event (EvCommit (Some R)) e' w')).
    { unfold Commit. rewrite (bind_val _ _ _ _ _ Ht).
      unfold call. rewrite Hr. reflexivity. }
    exists R. eexists. split.
    + rewrite (bind_val _ _ _ _ _ Hcom). reflexivity.
    + cbn. rewrite completions_app, took_effect_snoc, Hcs, Hte.
      split; [reflexivity | apply app_nil_r].
Qed.

End OwnCompletionFacts.

(** ** Nil handles, the order of trace and call, shared factories *)

Section EdgeFacts.

Context `{Types} `{!Collaborators}.

Lemma deref_none d (w : World) :
  dsls w !! d = None -> deref d w = (Panic NilDereference, w).
Proof. unfold deref. intros ->. reflexivity. Qed.

Lemma bind_panic {A B} (c : M A) (k : A -> M B) (w : World) p w' :
  c w = (Panic p, w') -> bind c k w = (Panic p, w').
Proof. unfold bind. intros ->. reflexivity. Qed.

Lemma Trace_nil d op s args (w : World) :
  dsls w !! d = None -> Trace d op s args w = (Panic NilDereference, w).
Proof. intros Hd. exact (bind_panic _ _ _ _ _ (deref_none d w Hd)). Qed.

(** X10. On a nil handle every operation panics with a nil dereference
    before it reaches the logger or the capability: the world is as it
    was, so nothing is sent and nothing is committed. [Wrap] on a handle
    without its [DSL] runs the work and then panics with the nil
    dereference, whatever the work returned or panicked with. *)
Theorem nil_handle_panics_before_any_call d (td : TxDatabase) ctx op query
    args (l : option Logger) (w : World) :
  dsls w !! d = None ->
  dsls w !! tx_DSL td = None ->
  Trace d op query args w = (Panic NilDereference, w) /\
  ExecContext d ctx query args w = (Panic NilDereference, w) /\
  PrepareContext d ctx query w = (Panic NilDereference, w) /\
  QueryContext d ctx query args w = (Panic NilDereference, w) /\
  QueryRowContext d ctx query args w = (Panic NilDereference, w) /\
  SetLogger d l w = (Panic NilDereference, w) /\
  Dialect d w = (Panic NilDereference, w) /\
  queryFactory d w = (Panic NilDereference, w) /\
  From d args w = (Panic NilDereference, w) /\
  Commit td w = (Panic NilDereference, w) /\
  Rollback td w = (Panic NilDereference, w) /\
  (forall (fn : M error) r w1,
     fn w = (r, w1) -> dsls w1 !! tx_DSL td = None ->
     Wrap td fn w = (Panic NilDereference, w1)).
Proof.
  intros Hd Htd.
  pose proof (deref_none d w Hd) as Hn.
  repeat split;
    try (apply (bind_panic _ _ _ _ _ (Trace_nil d _ _ _ w Hd)));
    try (apply (bind_panic _ _ _ _ _ (Trace_nil _ _ _ _ w Htd)));
    try (apply (bind_panic _ _ _ _ _ Hn)).
  - unfold queryFactory. apply bind_panic. unfold qfOnce_Do.
    apply (bind_panic _ _ _ _ _ Hn).
  - intros fn r w1 Hfn Hnil. rewrite (Wrap_eq td fn w r w1 Hfn).
    assert (HR : Rollback td w1 = (Panic NilDereference, w1))
      by apply (bind_panic _ _ _ _ _ (Trace_nil _ _ _ _ w1 Hnil)).
    assert (HC : Commit td w1 = (Panic NilDereference, w1))
      by apply (bind_panic _ _ _ _ _ (Trace_nil _ _ _ _ w1 Hnil)).
    destruct r as [[E|]|[|v|]]; cbn [Wrap_deferred recover].
    + exact (bind_panic _ _ _ _ _ HR).
    + exact (bind_panic _ _ _ _ _ HC).
    + exact (bind_panic _ _ _ _ _ HR).
    + exact (bind_panic _ _ _ _ _ HR).
    + exact (bind_panic _ _ _ _ _ HC).
Qed.

Lemma logged_call {A} d o (l : Logger) op q args
    (f : DSL -> W -> A * W) ev (w : World) :
  dsls w !! d = Some o -> logger o = Some l ->
  logged_then_sent
    (Trace d op q args ;; let* o := deref d in call (f o) ev)
    op q args l (f o) ev w.
Proof.
  intros Hd Hl.
  destruct (Trace_logged d o l op q args w Hd Hl) as (fmt & v & Ht & Hm).
  exists fmt, v. split; [exact Hm|].
  rewrite (bind_val _ _ _ _ _ Ht).
  assert (Hd1 : dsls (log_event (EvPrintf (Sprintf fmt v))
                        (Printf l fmt v (ext w)) w) !! d = Some o)
    by exact Hd.
  rewrite (bind_val _ _ _ _ _ (deref_some _ _ _ Hd1)), call_eq. cbn.
  rewrite Hm, <- app_assoc. repeat split.
Qed.

(** X11. With a logger set, a statement is logged before it is sent: the
    trace entry precedes the call on the log, the connection runs on the
    state the logger left, and the entry is there whether or not the
    statement then fails; likewise for [Commit] and [Rollback]. *)
Theorem statements_are_logged_before_they_are_sent d o (l : Logger)
    (td : TxDatabase) otx (ltx : Logger) ctx query args (w : World) :
  dsls w !! d = Some o -> logger o = Some l ->
  dsls w !! tx_DSL td = Some otx -> logger otx = Some ltx ->
  logged_then_sent (ExecContext d ctx query args) "EXEC" query args l
    (sql_ExecContext (sql o) ctx query args)
    (EvExecContext ctx query args) w /\
  logged_then_sent (PrepareContext d ctx query) "PREPARE" query [] l
    (sql_PrepareContext (sql o) ctx query) (EvPrepareContext ctx query) w /\
  logged_then_sent (QueryContext d ctx query args) "QUERY" query args l
    (sql_QueryContext (sql o) ctx query args)
    (EvQueryContext ctx query args) w /\
  logged_then_sent (QueryRowContext d ctx query args) "QUERY ROW" query
    args l (sql_QueryRowContext (sql o) ctx query args)
    (EvQueryRowContext ctx query args) w /\
  logged_then_sent (Commit td) "COMMIT" "" [] ltx (tx_Commit (Tx td))
    EvCommit w /\
  logged_then_sent (Rollback td) "ROLLBACK" "" [] ltx (tx_Rollback (Tx td))
    EvRollback w.
Proof.
  intros Hd Hl Htd Hltx. repeat split.
  - exact (logged_call d o l _ _ _
             (fun o => sql_ExecContext (sql o) ctx query args) _ w Hd Hl).
  - exact (logged_call d o l _ _ _
             (fun o => sql_PrepareContext (sql o) ctx query) _ w Hd Hl).
  - exact (logged_call d o l _ _ _
             (fun o => sql_QueryContext (sql o) ctx query args) _ w Hd Hl).
  - exact (logged_call d o l _ _ _
             (fun o => sql_QueryRowContext (sql o) ctx query args) _ w
             Hd Hl).
  - destruct (Trace_logged _ otx ltx "COMMIT" "" [] w Htd Hltx)
      as (fmt & v & Ht & Hm).
    exists fmt, v. split; [exact Hm|]. unfold Commit.
    rewrite (bind_val _ _ _ _ _ Ht), call_eq. cbn.
    rewrite Hm, <- app_assoc. repeat split.
  - destruct (Trace_logged _ otx ltx "ROLLBACK" "" [] w Htd Hltx)
      as (fmt & v & Ht & Hm).
    exists fmt, v. split; [exact Hm|]. unfold Rollback.
    rewrite (bind_val _ _ _ _ _ Ht), call_eq. cbn.
    rewrite Hm, <- app_assoc. repeat split.
Qed.

(** X12. Everything built from one handle shares one query factory: on a
    handle whose factory is not built, the first dataset constructor
    builds it, and the datasets and scans that follow receive that same
    factory, each dataset with the dialect of the handle; nothing but the
    one construction is logged by the constructors. *)
Theorem datasets_and_scans_share_the_factory d o from cols ctx i query
    args (w : World) :
  dsls w !! d = Some o -> done (qfOnce o) = false ->
  exists w1,
    From d from w
    = (Val (newDataset_From (dialect o)
              (Some {| qf_owner := d; qf_id := factories w |}) from), w1) /\
    events w1
    = events w
      ++ [EvNewQueryFactory {| qf_owner := d; qf_id := factories w |}] /\
    Select d cols w1
    = (Val (newDataset_Select (dialect o)
              (Some {| qf_owner := d; qf_id := factories w |}) cols), w1) /\
    ScanStructsContext d ctx i query args w1
    = exec_ScanStructsContext
        (FromSQL {| qf_owner := d; qf_id := factories w |} query args)
        ctx i w1.
Proof.
  intros Hd Hdone.
  destruct (queryFactory_first d o w Hd Hdone)
    as (w1 & Hq & He & _ & _ & Hs).
  set (q := {| qf_owner := d; qf_id := factories w |}) in *.
  set (o1 := {| logger := logger o; dialect := dialect o; sql := sql o;
                qf := Some q; qfOnce := {| done := true |} |}) in *.
  assert (Hd1 : dsls w1 !! d = Some o1)
    by (rewrite Hs; apply lookup_insert_eq).
  pose proof (queryFactory_later d o1 w1 Hd1 eq_refl) as Hq1.
  exists w1. split; [|split; [exact He|split]].
  - unfold From. rewrite (bind_val _ _ _ _ _ (deref_some _ _ _ Hd)).
    rewrite (bind_val _ _ _ _ _ Hq). reflexivity.
  - unfold Select. rewrite (bind_val _ _ _ _ _ (deref_some _ _ _ Hd1)).
    rewrite (bind_val _ _ _ _ _ Hq1). reflexivity.
  - unfold ScanStructsContext. rewrite (bind_val _ _ _ _ _ Hq1). reflexivity.
Qed.

End EdgeFacts.

(** ** The callers of [queryFactory] do not get stuck *)

Section ProgressFacts.

Variables (d : loc) (k : nat).

Lemma thread_step_rank i s p s' p' :
  thread_step d i s p = Some (s', p') -> rank p' < rank p.
Proof.
  destruct p; cbn; try (intros [= <- <-]; cbn; lia).
  - intros [= <- <-]. destruct (s_done s); cbn; lia.
  - destruct (s_mutex s); [discriminate|]. intros [= <- <-]. cbn. lia.
  - intros [= <- <-]. destruct (s_done s); cbn; lia.
Qed.

Lemma work_left_insert ts j pj p' :
  ts !! j = Some pj -> rank p' < rank pj ->
  work_left (<[j := p']> ts) < work_left ts.
Proof.
  unfold work_left. revert j. induction ts as [|p ts IH]; intros [|j];
    try discriminate.
  - intros [= ->] Hlt. cbn. lia.
  - intros Hj Hlt. specialize (IH j Hj Hlt).
    change (rank p + sum_list (rank <$> <[j := p']> ts)
            < rank p + sum_list (rank <$> ts)). lia.
Qed.

Lemma work_left_zero ts :
  work_left ts = 0 -> Forall (fun p => rank p = 0) ts.
Proof.
  unfold work_left. induction ts as [|p ts IH]; cbn; intros Hz;
    constructor; [lia | apply IH; lia].
Qed.

Lemma work_left_pending ts :
  0 < work_left ts -> exists i p, ts !! i = Some p /\ 0 < rank p.
Proof.
  unfold work_left. induction ts as [|p ts IH]; cbn; [lia|]. intros Hpos.
  destruct (decide (0 < rank p)) as [Hp|Hp].
  - exists 0, p. split; [reflexivity | exact Hp].
  - destruct IH as (i & q & Hi & Hq); [lia|]. exists (S i), q. auto.
Qed.

(** In a state the machine can reach, a goroutine that has not returned
    either moves itself or waits for the holder of the mutex, who moves. *)
Lemma once_progress st i p :
  once_inv {| qf_owner := d; qf_id := k |} k st ->
  st.2 !! i = Some p -> 0 < rank p ->
  exists j pj s' p',
    st.2 !! j = Some pj /\ thread_step d j st.1 pj = Some (s', p').
Proof.
  intros Hinv Hi Hpos. destruct st as [s ts]. cbn [fst snd] in *.
  destruct (thread_step d i s p) as [[s' p']|] eqn:Hstep.
  { exists i, p, s', p'. auto. }
  destruct p; cbn in Hstep, Hpos; try discriminate; try lia.
  destruct (s_mutex s) as [h|] eqn:Hmx; [|discriminate].
  destruct (inv_holder _ _ _ Hinv h Hmx) as (ph & Hh & Hok).
  cbn [fst snd] in *.
  destruct ph; cbn in Hok; try contradiction;
    eexists h, _, _, _; (split; [exact Hh | reflexivity]).
Qed.

Lemma run_app schedule rest st :
  run d (schedule ++ rest) st = run d rest (run d schedule st).
Proof. unfold run. apply foldl_app. Qed.

Lemma once_completes m st :
  once_inv {| qf_owner := d; qf_id := k |} k st ->
  work_left st.2 <= m ->
  exists rest,
    length rest <= m /\
    Forall (fun p => rank p = 0) (run d rest st).2.
Proof.
  revert st. induction m as [|m IH]; intros st Hinv Hm.
  - exists []. split; [reflexivity|]. apply work_left_zero. cbn. lia.
  - destruct (decide (work_left st.2 = 0)) as [Hz|Hnz].
    { exists []. split; [cbn; lia|]. apply work_left_zero, Hz. }
    destruct (work_left_pending st.2) as (i & p & Hi & Hpos); [lia|].
    destruct (once_progress st i p Hinv Hi Hpos)
      as (j & pj & s' & p' & Hj & Hstep).
    pose proof (thread_step_rank _ _ _ _ _ Hstep) as Hlt.
    assert (Hst : step d j st = (s', <[j := p']> st.2)).
    { unfold step. rewrite Hj, Hstep. reflexivity. }
    destruct (IH (step d j st)) as (rest & Hlen & Hall).
    + apply step_inv, Hinv.
    + rewrite Hst. cbn [snd].
      pose proof (work_left_insert st.2 j pj p' Hj Hlt). lia.
    + exists (j :: rest). split; [cbn; lia | exact Hall].
Qed.

Lemma step_work_left i st : work_left (step d i st).2 <= work_left st.2.
Proof.
  unfold step. destruct (st.2 !! i) as [p|] eqn:Hi; [|lia].
  destruct (thread_step d i st.1 p) as [[s' p']|] eqn:Hstep; [|lia].
  cbn [snd].
  pose proof (work_left_insert st.2 i p p' Hi
                (thread_step_rank _ _ _ _ _ Hstep)). lia.
Qed.

Lemma run_work_left schedule st :
  work_left (run d schedule st).2 <= work_left st.2.
Proof.
  revert st. induction schedule as [|i schedule IH]; intros st; [cbn; lia|].
  cbn. etrans; [apply IH | apply step_work_left].
Qed.

Lemma work_left_start n : work_left (start k n).2 = 8 * n.
Proof.
  unfold work_left. cbn [start snd]. induction n as [|n IH]; [reflexivity|].
  change (8 + sum_list (rank <$> replicate n Enter) = 8 * S n).
  rewrite IH. lia.
Qed.

(** X13. The callers of [queryFactory] cannot get stuck: however [n]
    concurrent callers on a new handle have been interleaved so far, the
    run can be continued, by at most [8 * n] further steps, to a state in
    which every caller has returned, and each of them has returned the one
    factory of the handle. *)
Theorem queryFactory_callers_all_return n schedule :
  exists rest,
    length rest <= 8 * n /\
    Forall (fun p => p = Returned (Some {| qf_owner := d; qf_id := k |}))
           (run d (schedule ++ rest) (start k n)).2.
Proof.
  pose proof (run_inv d k schedule _ (start_inv d k n)) as Hinv.
  destruct (once_completes (8 * n) _ Hinv) as (rest & Hlen & Hall).
  { rewrite <- (work_left_start n). apply run_work_left. }
  exists rest. split; [exact Hlen|]. rewrite run_app.
  pose proof (run_inv d k rest _ Hinv) as Hinv'.
  apply Forall_lookup. intros i p Hi.
  pose proof (proj1 (Forall_lookup _ _) Hall i p Hi) as Hr.
  pose proof (inv_waiter _ _ _ Hinv' i p Hi) as Hw.
  destruct p; cbn in Hr; try lia. cbn in Hw. destruct Hw as [_ ->].
  reflexivity.
Qed.

End ProgressFacts.

(** ** The theorems at the scripted driver *)

Section DemoFacts.

Import Demo.
#[local] Existing Instance demo_types.
#[local] Existing Instance demo_collaborators.

Example Sprintf_query_args :
  Sprintf "[goqu] %s [query:=`%s` args:=%+v]"
          [VStr "EXEC"; VStr "SELECT 1"; VSlice [VInt 7]]
  = "[goqu] EXEC [query:=`SELECT 1` args:=[7]]".
Proof. vm_compute. reflexivity. Qed.

Example Sprintf_mixed_args :
  Sprintf "%s=%+v" [VStr "a"; VSlice [VInt (-3); VStr "x"; VNil; VBool true; VSlice []]]
  = "a=[-3 x <nil> true []]".
Proof. vm_compute. reflexivity. Qed.

Example Sprintf_missing_extra :
  Sprintf "%s %v" [VInt 7] = "%!s(int=7) %!v(MISSING)" /\
  Sprintf "x" [VStr "a"; VNil] = "x%!(EXTRA string=a, <nil>)".
Proof. vm_compute. split; reflexivity. Qed.

Example Trace_demo_message :
  events (Trace 0 "EXEC" "SELECT 1" [VInt 7] (world traced false)).2
  = [EvPrintf "[goqu] EXEC [query:=`SELECT 1` args:=[7]]"].
Proof. vm_compute. reflexivity. Qed.

Example spec_message_examples :
  spec_message "EXEC" "SELECT 1" [] = "[goqu] EXEC [query:=`SELECT 1`]" /\
  spec_message "EXEC" "SELECT 1" [VInt 7]
  = "[goqu] EXEC [query:=`SELECT 1` args:=[7]]" /\
  spec_message "COMMIT" "" [] = "[goqu] COMMIT" /\
  spec_message "ROLLBACK" "" [] = "[goqu] ROLLBACK".
Proof. vm_compute. repeat split; reflexivity. Qed.

Lemma Trace_emits_spec_message_witness :
  exists format v,
    Sprintf format v = "[goqu] EXEC [query:=`SELECT 1` args:=[7]]" /\
    Trace 0 "EXEC" "SELECT 1" [VInt 7] (world traced false)
    = (Val tt,
       log_event (EvPrintf "[goqu] EXEC [query:=`SELECT 1` args:=[7]]")
                 (Printf keep format v (ext (world traced false)))
                 (world traced false)).
Proof.
  exact (Trace_emits_spec_message 0 traced "EXEC" "SELECT 1" [VInt 7]
           (world traced false) eq_refl).
Defined.

(** The sink of the scripted logger holds the message, and nothing when
    no logger is set. *)
Example Trace_demo_sink :
  printed (ext (Trace 0 "EXEC" "SELECT 1" [VInt 7] (world traced false)).2)
  = ["[goqu] EXEC [query:=`SELECT 1` args:=[7]]"] /\
  printed (ext (Trace 0 "EXEC" "SELECT 1" [] (world traced false)).2)
  = ["[goqu] EXEC [query:=`SELECT 1`]"] /\
  printed (ext (Trace 0 "COMMIT" "" [] (world traced false)).2)
  = ["[goqu] COMMIT"] /\
  printed (ext (Trace 0 "EXEC" "SELECT 1" [VInt 7] (world silent false)).2)
  = [].
Proof. vm_compute. repeat split; reflexivity. Qed.

Lemma capability_results_pass_through_witness :
  passes_through (ExecContext 0 3 "DELETE FROM t" [VInt 1])
    (Trace 0 "EXEC" "DELETE FROM t" [VInt 1])
    (sql_ExecContext raw 3 "DELETE FROM t" [VInt 1])
    (EvExecContext 3 "DELETE FROM t" [VInt 1]) (world traced true) /\
  passes_through (Commit (tx_over broken_tx)) (Trace 0 "COMMIT" "" [])
    (tx_Commit broken_tx) EvCommit (world traced true).
Proof.
  pose proof (capability_results_pass_through 0 traced (tx_over broken_tx)
                traced 3 "DELETE FROM t" [VInt 1] (world traced true)
                eq_refl eq_refl) as (He & _ & _ & _ & Hc & _).
  exact (conj He Hc).
Defined.

Lemma Wrap_error_rolls_back_witness :
  exists r w2,
    Rollback (tx_over broken_tx) (world traced true) = (Val r, w2) /\
    completions (events w2)
    = completions (events (world traced true)) ++ [EvRollback r] /\
    Wrap (tx_over broken_tx) failing (world traced true)
    = (Val (match r with Some R => Some R | None => Some "insert failed" end),
       w2).
Proof.
  exact (Wrap_error_rolls_back (tx_over broken_tx) traced
           failing "insert failed"
           (world traced true) (world traced true) eq_refl eq_refl).
Defined.



Lemma Wrap_success_commits_witness :
  exists r w2,
    Commit (tx_over std_tx) (world traced true) = (Val r, w2) /\
    completions (events w2)
    = completions (events (world traced true)) ++ [EvCommit r] /\
    Wrap (tx_over std_tx) (ret None) (world traced true) = (Val r, w2).
Proof.
  exact (proj1 (Wrap_success_commits (tx_over std_tx) traced (ret None)
                  (world traced true) (world traced true) eq_refl) eq_refl).
Defined.

Lemma Begin_passes_error_or_inherits_witness :
  begin_outcome (db_over down_db) traced (world traced false)
    (EvBegin (0, Some "dial tcp: connection refused")) 0
    (Some "dial tcp: connection refused") (ext (world traced false))
    (Begin (db_over down_db) (world traced false)) /\
  begin_outcome (db_over good_db) traced (world traced false)
    (EvBeginTx 5 true (1, None)) 1 None
    (set_open true (ext (world traced false)))
    (BeginTx (db_over good_db) 5 true (world traced false)).
Proof.
  split.
  - exact (proj1 (Begin_passes_error_or_inherits (db_over down_db) traced
                    (world traced false) eq_refl) _ _ _ eq_refl).
  - exact (proj2 (Begin_passes_error_or_inherits (db_over good_db) traced
                    (world traced false) eq_refl) 5 true _ _ _ eq_refl).
Defined.

Lemma WithTx_begins_then_wraps_witness :
  exists tx w1,
    Begin (db_over good_db) (world traced false)
    = (Val (Some tx, None), w1) /\
    WithTx (db_over good_db) delete_all
           (world traced false)
    = Wrap tx (delete_all tx) w1 /\
    Wrap tx (delete_all tx) w1
    = Wrap_deferred tx
        ((delete_all tx) w1).1
        ((delete_all tx) w1).2.
Proof.
  exact (WithTx_begins_then_wraps (db_over good_db) traced
           delete_all
           (world traced false) 1 None _ eq_refl eq_refl).
Defined.

Lemma context_free_is_background_witness :
  Exec 0 "SELECT 1" [VInt 7] (world traced false)
  = ExecContext 0 Background "SELECT 1" [VInt 7] (world traced false) /\
  passes_through (QueryRow 0 "SELECT 1" [VInt 7])
    (Trace 0 "QUERY ROW" "SELECT 1" [VInt 7])
    (sql_QueryRowContext raw Background "SELECT 1" [VInt 7])
    (EvQueryRowContext Background "SELECT 1" [VInt 7]) (world traced false).
Proof.
  pose proof (context_free_is_background 0 traced 9 "SELECT 1" [VInt 7]
                (world traced false) eq_refl) as [(He & _) (_ & _ & _ & Hq)].
  exact (conj He Hq).
Defined.

Example WithTx_demo_run :
  (WithTx (db_over good_db)
     delete_all
     (world traced false)).1 = Val None /\
  completions
    (events (WithTx (db_over good_db)
               delete_all
               (world traced false)).2)
  = [EvCommit None].
Proof. vm_compute. split; reflexivity. Qed.

Example newDSL_demo :
  newDSL "postgres" raw empty_world = (Val 0, world silent false).
Proof. vm_compute. reflexivity. Qed.

Example newDatabase_demo :
  newDatabase "postgres" good_db empty_world
  = (Val (db_over good_db), world silent false).
Proof. vm_compute. reflexivity. Qed.

(** A transaction begun on a traced database handle logs with the same
    sink: the commit that [WithTx] makes is traced. *)
Example WithTx_demo_log :
  printed (ext (WithTx (db_over good_db) delete_all (world traced false)).2)
  = ["[goqu] EXEC [query:=`DELETE FROM t`]"; "[goqu] COMMIT"].
Proof. vm_compute. reflexivity. Qed.

(** Work that fails is rolled back, and a failing rollback masks its
    error; work that panics is rolled back and the panic goes on. *)
Example Wrap_demo_runs :
  (Wrap (tx_over std_tx) failing (world traced true)).1
  = Val (Some "insert failed") /\
  (Wrap (tx_over broken_tx) failing (world traced true)).1
  = Val (Some "driver: bad connection") /\
  (Wrap (tx_over broken_tx) crashing (world traced true)).1
  = Panic (PanicWith "index out of range").
Proof. vm_compute. repeat split; reflexivity. Qed.

(** On a new handle, a dataset constructor runs first and builds the
    factory; the first scan on that handle then builds nothing: it
    leaves the log, the allocator and the store as they were. *)
Lemma first_scan_after_From_builds_nothing :
  (From 0 [VStr "items"] (world silent false)).1 = Val "postgres" /\
  events (From 0 [VStr "items"] (world silent false)).2
  = [EvNewQueryFactory Q0] /\
  ScanVal 0 9 "SELECT 1" [] (From 0 [VStr "items"] (world silent false)).2
  = (Val (true, None), (From 0 [VStr "items"] (world silent false)).2).
Proof. vm_compute. repeat split; reflexivity. Qed.

Lemma queryFactory_built_once_witness :
  (exists w',
     queryFactory 0 (world silent false) = (Val (Some Q0), w') /\
     events w' = events (world silent false) ++ [EvNewQueryFactory Q0] /\
     built 0 Q0 w' /\
     ScanValContext 0 3 9 "SELECT 1" [] (world silent false)
     = (let* e := factory_FromSQL (Some Q0) "SELECT 1" [] in
        exec_ScanValContext e 3 9) w') /\
  s_factories (run 0 round_robin (start 0 3)).1 <= 1.
Proof.
  pose proof (queryFactory_built_once 0) as (_ & Hfirst & _ & Hconc).
  split.
  - exact (Hfirst silent (world silent false) _ _ _ eq_refl
             (use_ScanValContext 0 silent 3 9 "SELECT 1" [])).
  - exact (proj1 (Hconc 0 3 round_robin)).
Defined.

Example three_callers_interleaved :
  run 0 round_robin (start 0 3)
  = ({| s_done := true; s_mutex := None; s_qf := Some Q0; s_factories := 1 |},
     [Returned (Some Q0); Returned (Some Q0); Returned (Some Q0)]).
Proof. vm_compute. reflexivity. Qed.

(** Over a capability that accepts every completion, a commit followed by
    a rollback both take effect on one handle. *)
Lemma lax_capability_completes_twice :
  took_effect
    (events (run_ops (tx_over lax_tx) [OCommit; ORollback]
                     (world silent true)).2)
  = [EvCommit None; EvRollback None] /\
  ran (ext (run_ops (tx_over lax_tx) [OCommit; ORollback]
                    (world silent true)).2)
  = ["COMMIT"; "ROLLBACK"].
Proof. vm_compute. split; reflexivity. Qed.

Lemma std_tx_one_shot : one_shot over std_tx.
Proof.
  split; cbn; unfold complete, over; intros e;
    destruct (tx_open e) eqn:Ho; cbn; rewrite ?Ho; intuition congruence.
Qed.

Lemma traced_keeps_closed : keeps_closed over traced.
Proof.
  split; cbn; unfold over; cbn; auto.
  intros l format v e [= <-]. cbn. auto.
Qed.

Lemma world_traced_good open : good over (tx_over std_tx) (world traced open).
Proof.
  intros o Ho. cbn in Ho. rewrite lookup_singleton_eq in Ho.
  injection Ho as <-. exact traced_keeps_closed.
Qed.

Lemma one_shot_completes_at_most_once_witness :
  length (took_effect (events (world traced true)))
  <= length (took_effect
               (events (run_ops (tx_over std_tx) busy_program
                                (world traced true)).2))
  <= S (length (took_effect (events (world traced true)))) /\
  (length (took_effect
             (events (run_ops (tx_over std_tx) busy_program
                              (world traced true)).2))
   = S (length (took_effect (events (world traced true)))) ->
   over (ext (run_ops (tx_over std_tx) busy_program
                      (world traced true)).2) = true) /\
  (over (ext (world traced true)) = true ->
   over (ext (run_ops (tx_over std_tx) busy_program
                      (world traced true)).2) = true /\
   length (took_effect
             (events (run_ops (tx_over std_tx) busy_program
                              (world traced true)).2))
   = length (took_effect (events (world traced true)))).
Proof.
  exact (one_shot_completes_at_most_once over (tx_over std_tx)
           std_tx_one_shot busy_program (world traced true)
           (world_traced_good true)).
Defined.

Example busy_program_run :
  took_effect
    (events (run_ops (tx_over std_tx) busy_program (world traced true)).2)
  = [EvCommit None] /\
  completions
    (events (run_ops (tx_over std_tx) busy_program (world traced true)).2)
  = [EvCommit None; EvRollback (Some ErrTxDone); EvCommit (Some ErrTxDone);
     EvCommit (Some ErrTxDone)].
Proof. vm_compute. split; reflexivity. Qed.

(** *** More of the code, at the scripted driver *)

Lemma Logger_sets_only_the_logger_witness :
  SetLogger 0 (Some keep) (world silent false)
  = (Val tt, with_object 0 (with_logger (Some keep) silent)
                         (world silent false)) /\
  exists format v,
    Sprintf format v = "[goqu] EXEC [query:=`SELECT 1`]" /\
    Trace 0 "EXEC" "SELECT 1" []
      (with_object 0 (with_logger (Some keep) silent) (world silent false))
    = (Val tt,
       log_event (EvPrintf "[goqu] EXEC [query:=`SELECT 1`]")
         (Printf keep format v (ext (world silent false)))
         (with_object 0 (with_logger (Some keep) silent)
                      (world silent false))).
Proof.
  pose proof (Logger_sets_only_the_logger 0 silent (Some keep)
                (world silent false) eq_refl) as (Hs & _ & Ht & _).
  exact (conj Hs (Ht "EXEC" "SELECT 1" [])).
Defined.

(** After [Logger], the sink of the new logger holds the message. *)
Example Logger_then_Trace_sink :
  printed (ext ((SetLogger 0 (Some keep) ;; Trace 0 "EXEC" "SELECT 1" [])
                  (world silent false)).2)
  = ["[goqu] EXEC [query:=`SELECT 1`]"] /\
  printed (ext ((SetLogger 0 None ;; Trace 0 "EXEC" "SELECT 1" [])
                  (world traced false)).2)
  = [].
Proof. vm_compute. split; reflexivity. Qed.

Lemma Begin_binds_handle_to_transaction_witness :
  exists tx w1,
    Begin (db_over good_db) (world traced false)
    = (Val (Some tx, None), w1) /\
    transaction_handle tx std_tx 0 w1.
Proof.
  exact (proj1 (Begin_binds_handle_to_transaction (db_over good_db) traced
                  (world traced false) eq_refl) 1 _ eq_refl).
Defined.

Lemma Begin_copies_the_logger_witness :
  exists tx w1,
    Begin (db_over good_db) (world traced false)
    = (Val (Some tx, None), w1) /\
    forall l,
      (exists w2 otx,
         SetLogger 0 l w1 = (Val tt, w2) /\
         dsls w2 !! tx_DSL tx = Some otx /\ logger otx = Some keep) /\
      (exists w2 od,
         SetLogger (tx_DSL tx) l w1 = (Val tt, w2) /\
         dsls w2 !! 0 = Some od /\ logger od = Some keep).
Proof.
  exact (Begin_copies_the_logger (db_over good_db) traced 1 _
           (world traced false) eq_refl eq_refl).
Defined.

Lemma Begin_twice_gives_two_handles_witness :
  exists tx1 tx2 w1 w2,
    Begin (db_over good_db) (world traced false)
    = (Val (Some tx1, None), w1) /\
    Begin (db_over good_db) w1 = (Val (Some tx2, None), w2) /\
    tx_DSL tx1 <> tx_DSL tx2 /\
    tx_DSL tx1 <> 0 /\
    tx_DSL tx2 <> 0 /\
    dsls w2 !! tx_DSL tx1 = dsls w1 !! tx_DSL tx1 /\
    dsls w2 !! tx_DSL tx1 = Some (tx_object traced std_tx) /\
    events w2
    = events (world traced false) ++ [EvBegin (1, None); EvBegin (1, None)].
Proof.
  exact (Begin_twice_gives_two_handles (db_over good_db) traced 1 1 _ _
           (world traced false) eq_refl eq_refl eq_refl).
Defined.

Lemma WithTx_completes_the_transaction_witness :
  exists tx w1,
    Begin (db_over good_db) (world traced false)
    = (Val (Some tx, None), w1) /\
    Tx tx = std_tx /\
    forall r w2 o2,
      delete_all tx w1 = (r, w2) ->
      dsls w2 !! tx_DSL tx = Some o2 ->
      match r with
      | Val None | Panic PanicNil =>
          completes_with
            (WithTx (db_over good_db) delete_all (world traced false))
            (Trace (tx_DSL tx) "COMMIT" "" []) (tx_Commit std_tx) EvCommit
            Val w2
      | Val (Some E) =>
          completes_with
            (WithTx (db_over good_db) delete_all (world traced false))
            (Trace (tx_DSL tx) "ROLLBACK" "" []) (tx_Rollback std_tx)
            EvRollback
            (fun x => Val (match x with Some R => Some R | None => Some E end))
            w2
      | Panic p =>
          completes_with
            (WithTx (db_over good_db) delete_all (world traced false))
            (Trace (tx_DSL tx) "ROLLBACK" "" []) (tx_Rollback std_tx)
            EvRollback (fun _ => Panic p) w2
      end.
Proof.
  exact (WithTx_completes_the_transaction (db_over good_db) traced
           delete_all 1 _ (world traced false) eq_refl eq_refl).
Defined.

(** The driver after [WithTx]: the statement ran in the transaction and
    the transaction is over; work that fails leaves nothing open either. *)
Example WithTx_demo_driver :
  tx_open (ext (WithTx (db_over good_db) delete_all (world traced false)).2)
  = false /\
  took_effect
    (events (WithTx (db_over good_db) delete_all (world traced false)).2)
  = [EvCommit None] /\
  (WithTx (db_over good_db) (fun _ => failing) (world traced false)).1
  = Val (Some "insert failed") /\
  tx_open
    (ext (WithTx (db_over good_db) (fun _ => failing) (world traced false)).2)
  = false /\
  took_effect
    (events (WithTx (db_over good_db) (fun _ => failing)
               (world traced false)).2)
  = [EvRollback None].
Proof. vm_compute. repeat split; reflexivity. Qed.

Lemma good_at_traced (w : World) :
  dsls w = {[ 0 := traced ]} -> good over (tx_over std_tx) w.
Proof.
  intros Hs o Ho. rewrite Hs in Ho. cbn in Ho.
  rewrite lookup_singleton_eq in Ho. injection Ho as <-.
  exact traced_keeps_closed.
Qed.

Lemma Wrap_reports_refusal_after_own_completion_witness :
  exists R w2,
    Wrap (tx_over std_tx) commits_itself (world traced true)
    = (Val (Some R), w2) /\
    completions (events w2)
    = completions (events (commits_itself (world traced true)).2)
      ++ [EvCommit (Some R)] /\
    took_effect (events w2)
    = took_effect (events (commits_itself (world traced true)).2).
Proof.
  exact (Wrap_reports_refusal_after_own_completion over (tx_over std_tx)
           std_tx_one_shot commits_itself None (world traced true)
           (commits_itself (world traced true)).2 traced
           (good_at_traced (commits_itself (world traced true)).2 eq_refl)
           eq_refl eq_refl eq_refl).
Defined.

Example Wrap_after_own_commit_run :
  (Wrap (tx_over std_tx) commits_itself (world traced true)).1
  = Val (Some ErrTxDone) /\
  took_effect
    (events (Wrap (tx_over std_tx) commits_itself (world traced true)).2)
  = [EvCommit None].
Proof. vm_compute. split; reflexivity. Qed.

Lemma nil_handle_panics_before_any_call_witness :
  ExecContext 5 0 "SELECT 1" [] (world traced true)
  = (Panic NilDereference, world traced true) /\
  Commit bare_tx (world traced true)
  = (Panic NilDereference, world traced true) /\
  Wrap bare_tx failing (world traced true)
  = (Panic NilDereference, world traced true).
Proof.
  pose proof (nil_handle_panics_before_any_call 5 bare_tx 0 "EXEC"
                "SELECT 1" [] None (world traced true) eq_refl eq_refl)
    as (_ & He & _ & _ & _ & _ & _ & _ & _ & Hc & _ & Hw).
  exact (conj He (conj Hc (Hw failing _ _ eq_refl eq_refl))).
Defined.

Lemma statements_are_logged_before_they_are_sent_witness :
  logged_then_sent (ExecContext 0 3 "DELETE FROM t" [VInt 1]) "EXEC"
    "DELETE FROM t" [VInt 1] keep
    (sql_ExecContext raw 3 "DELETE FROM t" [VInt 1])
    (EvExecContext 3 "DELETE FROM t" [VInt 1]) (world traced true) /\
  logged_then_sent (Commit (tx_over broken_tx)) "COMMIT" "" [] keep
    (tx_Commit broken_tx) EvCommit (world traced true).
Proof.
  pose proof (statements_are_logged_before_they_are_sent 0 traced keep
                (tx_over broken_tx) traced keep 3 "DELETE FROM t" [VInt 1]
                (world traced true) eq_refl eq_refl eq_refl eq_refl)
    as (He & _ & _ & _ & Hc & _).
  exact (conj He Hc).
Defined.

Example failed_commit_is_logged :
  events (Commit (tx_over broken_tx) (world traced true)).2
  = [EvPrintf "[goqu] COMMIT"; EvCommit (Some "driver: bad connection")].
Proof. vm_compute. reflexivity. Qed.

Lemma datasets_and_scans_share_the_factory_witness :
  exists w1,
    From 0 [VStr "items"] (world silent false)
    = (Val (newDataset_From "postgres" (Some Q0) [VStr "items"]), w1) /\
    events w1 = events (world silent false) ++ [EvNewQueryFactory Q0] /\
    Select 0 [VStr "id"] w1
    = (Val (newDataset_Select "postgres" (Some Q0) [VStr "id"]), w1) /\
    ScanStructsContext 0 3 9 "SELECT 1" [] w1
    = exec_ScanStructsContext (FromSQL Q0 "SELECT 1" []) 3 9 w1.
Proof.
  exact (datasets_and_scans_share_the_factory 0 silent [VStr "items"]
           [VStr "id"] 3 9 "SELECT 1" [] (world silent false)
           eq_refl eq_refl).
Defined.

Lemma with_factory_built : built 0 Q0 (world with_factory false).
Proof. exists with_factory. repeat split. Qed.

Lemma factory_and_logger_are_independent_witness :
  exists w',
    SetLogger 0 (Some keep) (world with_factory false) = (Val tt, w') /\
    built 0 Q0 w' /\
    queryFactory 0 w' = (Val (Some Q0), w').
Proof.
  exact (proj1 (factory_and_logger_are_independent 0
                  (world with_factory false))
           Q0 (Some keep) with_factory_built).
Defined.

Lemma solo_run_is_queryFactory_witness :
  exists r w' o',
    queryFactory 0 (world silent false) = (Val r, w') /\
    dsls w' !! 0 = Some o' /\
    run 0 (replicate 9 0)
        ({| s_done := false; s_mutex := None; s_qf := None;
            s_factories := 0 |}, [Enter])
    = ({| s_done := done (qfOnce o'); s_mutex := None; s_qf := qf o';
          s_factories := factories w' |}, [Returned r]).
Proof.
  exact (solo_run_is_queryFactory 0 silent (world silent false) eq_refl).
Defined.

End DemoFacts.
